(** * Kapanak: the SM-2 scheduling engine, the order of a review session
      and the study-session controller

    The development follows the JavaScript sources:
    - [js/sm2.js], the flat SM-2 schedule: module [Flat];
    - the graduated variant of [sm2.js]: module [Graduated];
    - the same two files read as programs on card objects, to account for
      what they assign to: modules [Obj], [FlatObj] and [GraduatedObj];
    - the two variants of [app.js]: the one that updates the schedule in
      both modes (module [App]) and the one whose practice mode leaves the
      schedule alone (module [AppStudyOnly]);
    - [db.js]: [createCard], the [cards] table behind
      [CardDB.updateCard], and the queries [getAllCards] and [getDueCards];
    - [import.js], on the code units of its text: module [ImportParser];
    - of [app.js] also the start of a session, the shuffle, the duplicates
      of an import, the streak and the count of the day in [localStorage],
      and a review with its count and sounds: module [AppPage].

    Modelling conventions.
    - A JavaScript number that holds a fraction ([easeFactor] and the
      intermediate results of the scheduling arithmetic) is an IEEE 754
      binary64 value, computed with the operations of [SpecFloat] at
      precision 53 and maximal exponent 1024.
    - [interval], [repetitions] and [quality] hold integers and are in [Z];
      where the source multiplies or divides them as numbers they are
      converted with [JS.ofZ].
    - A [Date], and the ISO string the sources store for it, is the instant
      it denotes: a number of milliseconds in [Z].  [setDate(getDate() + n)]
      adds [n] days of 86 400 000 ms (a time zone without clock changes) and
      the finite range of [Date] is not modelled.  A [Date] built from a
      number that is not finite is invalid and its [toISOString] throws;
      the model has no result ([None]) as soon as such a number is
      computed, the statements in between only assign to the object that
      the call discards.  Where the sources compare the stored strings
      themselves (the index of [getDueCards]), the string of an instant is
      written by the [toISOString] that the definition is given. *)

From Stdlib Require Import ZArith Lia SpecFloat Sorted Permutation.
From stdpp Require Import gmap strings list pretty.

Local Open Scope Z_scope.

(** ** JavaScript numbers *)

Module JS.

Definition prec : Z := 53.
Definition emax : Z := 1024.

Definition Number : Type := spec_float.

Definition NaN : Number := S754_nan.

(** The number denoted by an integer. *)
Definition ofZ (z : Z) : Number := binary_normalize prec emax z 0 false.

Definition add : Number -> Number -> Number := SFadd prec emax.
Definition sub : Number -> Number -> Number := SFsub prec emax.
Definition mul : Number -> Number -> Number := SFmul prec emax.
Definition div : Number -> Number -> Number := SFdiv prec emax.

(** A decimal literal [num/den] of the source text: the binary64 value
    nearest to the fraction. *)
Definition lit (num den : Z) : Number := div (ofZ num) (ofZ den).

Definition ltb : Number -> Number -> bool := SFltb.
Definition leb : Number -> Number -> bool := SFleb.
Definition eqb : Number -> Number -> bool := SFeqb.

(** [Math.max(a, b)]: NaN if either argument is, and [+0] above [-0]. *)
Definition Math_max (a b : Number) : Number :=
  match SFcompare a b with
  | None => NaN
  | Some Lt => b
  | Some Gt => a
  | Some Eq => match a with S754_zero true => b | _ => a end
  end.

(** [Math.round(x)]: the integer nearest to [x], ties towards +infinity.
    [None] stands for the non-finite results ([NaN], [Infinity]). *)
Definition Math_round (x : Number) : option Z :=
  match x with
  | S754_zero _ => Some 0
  | S754_finite s m e =>
      let n := cond_Zopp s (Zpos m) in
      Some match e with
           | Zneg p => (2 * n + 2 ^ Zpos p) / 2 ^ (Zpos p + 1)
           | _ => n * 2 ^ e
           end
  | _ => None
  end.

End JS.

Declare Scope js_scope.
Delimit Scope js_scope with js.
Infix "+" := JS.add : js_scope.
Infix "-" := JS.sub : js_scope.
Infix "*" := JS.mul : js_scope.
Infix "/" := JS.div : js_scope.
Infix "<?" := JS.ltb : js_scope.
Infix "<=?" := JS.leb : js_scope.

(** The decimal literals of the scheduling code. *)
Definition n0_1 : JS.Number := JS.lit 1 10.
Definition n0_08 : JS.Number := JS.lit 8 100.
Definition n0_02 : JS.Number := JS.lit 2 100.
Definition n1_3 : JS.Number := JS.lit 13 10.
Definition n2_5 : JS.Number := JS.lit 25 10.

(** ** Cards *)

(** The object built by [createCard] in [db.js]. *)
Record Card : Type := mkCard {
id : string;
front : string;
back : string;
interval : Z;
easeFactor : JS.Number;
repetitions : Z;
dueDate : Z;
lastReviewed : option Z;
createdAt : Z
}.

Definition set_interval (v : Z) (c : Card) : Card :=
mkCard (id c) (front c) (back c) v (easeFactor c) (repetitions c)
       (dueDate c) (lastReviewed c) (createdAt c).
Definition set_easeFactor (v : JS.Number) (c : Card) : Card :=
mkCard (id c) (front c) (back c) (interval c) v (repetitions c)
       (dueDate c) (lastReviewed c) (createdAt c).
Definition set_repetitions (v : Z) (c : Card) : Card :=
mkCard (id c) (front c) (back c) (interval c) (easeFactor c) v
       (dueDate c) (lastReviewed c) (createdAt c).
Definition set_dueDate (v : Z) (c : Card) : Card :=
mkCard (id c) (front c) (back c) (interval c) (easeFactor c) (repetitions c)
       v (lastReviewed c) (createdAt c).
Definition set_lastReviewed (v : option Z) (c : Card) : Card :=
mkCard (id c) (front c) (back c) (interval c) (easeFactor c) (repetitions c)
       (dueDate c) v (createdAt c).

(** [createCard(front, back)], given the fresh identifier and the clock. *)
Definition createCard (uuid : string) (front back : string) (now : Z) : Card :=
mkCard uuid front back 0 n2_5 0 now None now.

(** ** Dates *)

Definition msPerMinute : Z := 60 * 1000.
Definition msPerDay : Z := 24 * 60 * msPerMinute.

(** [d.setDate(d.getDate() + days)] on the instant [d]. *)
Definition addDays (d days : Z) : Z := d + days * msPerDay.

(** The ease update of SM-2,
  [EF + (0.1 - (5 - q) * (0.08 + (5 - q) * 0.02))], evaluated in the order
  JavaScript evaluates it. *)
Definition easeDelta (quality : Z) : JS.Number :=
(n0_1 - JS.ofZ (5 - quality) * (n0_08 + JS.ofZ (5 - quality) * n0_02))%js.

(** ** Texts and arrays *)

(** [`${n}`] for the result of a [Math.round]. *)
Definition showRounded (n : option Z) : string :=
match n with
| Some z => pretty z
| None => "NaN"
end.

(** [`${t / 10}`] for [t = Math.round(...)]: JavaScript prints the shortest
  decimal that reads back as the same number, which for a non-negative
  count of tenths below 10^16 is the integer part, followed by a point and
  one digit unless that digit is 0. *)
Definition showTenths (t : option Z) : string :=
match t with
| Some t =>
    if t mod 10 =? 0 then pretty (t / 10)
    else pretty (t / 10) +:+ "." +:+ pretty (t mod 10)
| None => "NaN"
end.

(** [a[i]]: [undefined] (here [None]) outside the array. *)
Definition item {A : Type} (a : list A) (i : Z) : option A :=
if i <? 0 then None else a !! Z.to_nat i.

(** [Array.prototype.sort(compare)].  The sort of ECMAScript is stable, and
  for a consistent comparator its result is determined: the elements in
  ascending order, equal ones in their original order.  The model is the
  stable insertion sort. *)
Section ArraySort.
Context {A : Type} (compare : A -> A -> Z).

Fixpoint sort_insert (x : A) (l : list A) : list A :=
  match l with
  | [] => [x]
  | y :: l' => if compare x y >? 0 then y :: sort_insert x l' else x :: l
  end.

Definition Array_sort (l : list A) : list A := foldr sort_insert [] l.
End ArraySort.

(** [a.splice(start, 0, x)]: [start] is clamped to the length. *)
Definition splice_insert {A : Type} (start : nat) (x : A) (a : list A) : list A :=
take start a ++ x :: drop start a.

(** The [sensitivity] option of [Intl.Collator]. *)
Inductive Sensitivity : Type := SensBase | SensAccent | SensCase | SensVariant.

(** The text for an interval in days, the same in both variants of
    [getIntervalHint]:
    [interval === 1 ? '1 day' : interval < 30 ? `${interval} days` : ...]. *)
Definition describeDays (interval : Z) : string :=
  if interval =? 1 then "1 day"
  else if interval <? 30 then pretty interval +:+ " days"
  else if interval <? 365 then
    let months := JS.Math_round (JS.ofZ interval / JS.ofZ 30)%js in
    if decide (months = Some 1) then "1 month"
    else showRounded months +:+ " months"
  else
    let years10 := JS.Math_round (JS.ofZ interval / JS.ofZ 365 * JS.ofZ 10)%js in
    if decide (years10 = Some 10) then "1 year"
    else showTenths years10 +:+ " years".

(** ** [js/sm2.js]: the flat schedule *)

Module Flat.

(** [calculateNextReview(card, quality)], with the reading [now] of the
    clock.  [None]: the interval is not finite, so that the due date is
    invalid and [toISOString] throws a [RangeError]. *)
Definition calculateNextReview (card : Card) (quality now : Z) : option Card :=
  let updated := card in
  let updated := set_lastReviewed (Some now) updated in
  if quality <? 3 then
    let updated := set_repetitions 0 updated in
    let updated := set_interval 0 updated in
    let dueDate := now + 60 * 1000 in
    let updated := set_dueDate dueDate updated in
    Some updated
  else
    let newEF := (easeFactor updated + easeDelta quality)%js in
    let updated := set_easeFactor (JS.Math_max n1_3 newEF) updated in
    i ← (if repetitions updated =? 0 then Some 1
         else if repetitions updated =? 1 then Some 6
         else JS.Math_round (JS.ofZ (interval updated) * easeFactor updated)%js);
    i ← (if quality =? 5 then JS.Math_round (JS.ofZ i * n1_3)%js else Some i);
    let updated := set_interval i updated in
    let updated := set_repetitions (repetitions updated + 1) updated in
    let dueDate := addDays now (interval updated) in
    let updated := set_dueDate dueDate updated in
    Some updated.

(** [getIntervalHint(card, quality)]. *)
Definition getIntervalHint (card : Card) (quality now : Z) : option string :=
  simulated ← calculateNextReview card quality now;
  if quality <? 3 then Some "<1min"
  else Some (describeDays (interval simulated)).

(** The comparator passed to [cards.sort], for the [compare] function of
    the collator built by [new Intl.Collator(locale, { sensitivity })]. *)
Definition compareCards
    (Intl_Collator : string -> Sensitivity -> string -> string -> Z)
    (a b : Card) : Z :=
  let collator := Intl_Collator "pl" SensBase in
  if (repetitions a =? 0) && negb (repetitions b =? 0) then -1
  else if negb (repetitions a =? 0) && (repetitions b =? 0) then 1
  else
    let dateA := dueDate a in
    let dateB := dueDate b in
    if dateA <? dateB then -1
    else if dateA >? dateB then 1
    else collator (front a) (front b).

Definition sortCardsForReview
    (Intl_Collator : string -> Sensitivity -> string -> string -> Z)
    (cards : list Card) : list Card :=
  Array_sort (compareCards Intl_Collator) cards.

End Flat.

(** ** The graduated variant of [sm2.js] *)

Module Graduated.

Definition LEARNING_STEPS_MIN : list Z := [10].
Definition GRADUATED_DAYS : list Z := [1; 3; 7; 14].
Definition LEARNING_COUNT : Z := Z.of_nat (length LEARNING_STEPS_MIN).
Definition GRADUATED_COUNT : Z := Z.of_nat (length GRADUATED_DAYS).
Definition MASTERY_THRESHOLD : Z := LEARNING_COUNT + GRADUATED_COUNT.

(** [calculateNextReview(card, quality)].  [None]: the due date is invalid
    (a step read outside [LEARNING_STEPS_MIN], or an interval that is not
    finite) and [toISOString] throws. *)
Definition calculateNextReview (card : Card) (quality now : Z) : option Card :=
  let updated := card in
  let updated := set_lastReviewed (Some now) updated in
  if quality <? 3 then
    let updated := set_repetitions 0 updated in
    let updated := set_interval 0 updated in
    let dueDate := now + 60 * 1000 in
    let updated := set_dueDate dueDate updated in
    Some updated
  else
    let newEF := (easeFactor updated + easeDelta quality)%js in
    let updated := set_easeFactor (JS.Math_max n1_3 newEF) updated in
    let rep := repetitions updated in
    if rep <? LEARNING_COUNT then
      if quality =? 5 then
        i ← item GRADUATED_DAYS 0;
        let updated := set_interval i updated in
        let updated := set_repetitions (LEARNING_COUNT + 1) updated in
        let dueDate := addDays now (interval updated) in
        let updated := set_dueDate dueDate updated in
        Some updated
      else
        minutes ← item LEARNING_STEPS_MIN rep;
        let updated := set_interval 0 updated in
        let updated := set_repetitions (rep + 1) updated in
        let dueDate := now + minutes * 60 * 1000 in
        let updated := set_dueDate dueDate updated in
        Some updated
    else
      let gradIndex := rep - LEARNING_COUNT in
      if gradIndex <? GRADUATED_COUNT then
        updated ←
          (if (quality =? 5) && (gradIndex + 1 <? GRADUATED_COUNT) then
             i ← item GRADUATED_DAYS (gradIndex + 1);
             let updated := set_interval i updated in
             let updated := set_repetitions (rep + 2) updated in
             Some updated
           else
             i ← item GRADUATED_DAYS gradIndex;
             let updated := set_interval i updated in
             let updated := set_repetitions (rep + 1) updated in
             if quality =? 5 then
               i ← JS.Math_round (JS.ofZ (interval updated) * n1_3)%js;
               Some (set_interval i updated)
             else Some updated);
        let dueDate := addDays now (interval updated) in
        let updated := set_dueDate dueDate updated in
        Some updated
      else
        i ← JS.Math_round (JS.ofZ (interval updated) * easeFactor updated)%js;
        i ← (if quality =? 5 then JS.Math_round (JS.ofZ i * n1_3)%js else Some i);
        let updated := set_interval i updated in
        let updated := set_repetitions (rep + 1) updated in
        let dueDate := addDays now (interval updated) in
        let updated := set_dueDate dueDate updated in
        Some updated.

(** The text for a delay below one day:
    [minutes < 60 ? `${minutes} min` : `${Math.round(minutes / 60)} hr`]. *)
Definition describeMinutes (due now : Z) : string :=
  let minutes := JS.Math_round (JS.ofZ (due - now) / JS.ofZ (60 * 1000))%js in
  match minutes with
  | Some m =>
      if m <? 60 then pretty m +:+ " min"
      else showRounded (JS.Math_round (JS.ofZ m / JS.ofZ 60)%js) +:+ " hr"
  | None => "NaN hr"
  end.

(** [getIntervalHint(card, quality)]: the clock is read once by
    [calculateNextReview] ([now]) and once more for a delay below one day
    ([now']). *)
Definition getIntervalHint (card : Card) (quality now now' : Z) : option string :=
  simulated ← calculateNextReview card quality now;
  if quality <? 3 then Some "1 min"
  else if interval simulated =? 0 then
    Some (describeMinutes (dueDate simulated) now')
  else Some (describeDays (interval simulated)).

(** The comparator passed to [cards.sort]. *)
Definition compareCards
    (Intl_Collator : string -> Sensitivity -> string -> string -> Z)
    (a b : Card) : Z :=
  let collator := Intl_Collator "pl" SensBase in
  let aLearning := repetitions a <? MASTERY_THRESHOLD in
  let bLearning := repetitions b <? MASTERY_THRESHOLD in
  if aLearning && negb bLearning then -1
  else if negb aLearning && bLearning then 1
  else
    let dateA := dueDate a in
    let dateB := dueDate b in
    if dateA <? dateB then -1
    else if dateA >? dateB then 1
    else collator (front a) (front b).

Definition sortCardsForReview
    (Intl_Collator : string -> Sensitivity -> string -> string -> Z)
    (cards : list Card) : list Card :=
  Array_sort (compareCards Intl_Collator) cards.

End Graduated.

(** ** Objects and references

    [calculateNextReview] receives a reference to a card object, builds its
    result in a new object ([{ ...card }]) and assigns to the fields of that
    object.  The programs below are the two variants of [sm2.js] once more,
    statement by statement, over a heap of card objects; a computation
    returns its result, or [None] when it throws, together with the heap it
    leaves. *)

Module Obj.

Definition ref : Type := positive.

Definition js (A : Type) : Type :=
  gmap positive Card -> option A * gmap positive Card.

Definition ret {A : Type} (a : A) : js A := fun h => (Some a, h).

Definition bind {A B : Type} (m : js A) (k : A -> js B) : js B :=
  fun h =>
    match m h with
    | (Some a, h') => k a h'
    | (None, h') => (None, h')
    end.

(** An option as a computation: [None] throws. *)
Definition lift {A : Type} (o : option A) : js A := fun h => (o, h).

(** [{ ...r }]: a new object with the fields of [r]. *)
Definition spread (r : ref) : js ref :=
  fun h =>
    match h !! r with
    | Some c => let r' := fresh (dom h) in (Some r', <[r' := c]> h)
    | None => (None, h)
    end.

(** [r.f] *)
Definition load {A : Type} (f : Card -> A) (r : ref) : js A :=
  fun h =>
    match h !! r with
    | Some c => (Some (f c), h)
    | None => (None, h)
    end.

(** [r.f = v], for the setter [upd] of the field. *)
Definition store (upd : Card -> Card) (r : ref) : js unit :=
  fun h =>
    match h !! r with
    | Some c => (Some tt, <[r := upd c]> h)
    | None => (None, h)
    end.

End Obj.

Declare Scope js_prog_scope.
Delimit Scope js_prog_scope with prog.
Notation "x <- m ;; k" := (Obj.bind m (fun x => k))
  (at level 100, m at next level, right associativity) : js_prog_scope.
Notation "m ;;; k" := (Obj.bind m (fun _ => k))
  (at level 100, right associativity) : js_prog_scope.

Module FlatObj.
Import Obj.

Definition calculateNextReview (card : ref) (quality now : Z) : js ref :=
  (updated <- spread card;;
   store (set_lastReviewed (Some now)) updated;;;
   if quality <? 3 then
     store (set_repetitions 0) updated;;;
     store (set_interval 0) updated;;;
     let dueDate := now + 60 * 1000 in
     store (set_dueDate dueDate) updated;;;
     ret updated
   else
     ef <- load easeFactor updated;;
     let newEF := (ef + easeDelta quality)%js in
     store (set_easeFactor (JS.Math_max n1_3 newEF)) updated;;;
     reps <- load repetitions updated;;
     (if reps =? 0 then store (set_interval 1) updated
      else if reps =? 1 then store (set_interval 6) updated
      else
        i <- load interval updated;;
        ef <- load easeFactor updated;;
        i' <- lift (JS.Math_round (JS.ofZ i * ef)%js);;
        store (set_interval i') updated);;;
     (if quality =? 5 then
        i <- load interval updated;;
        i' <- lift (JS.Math_round (JS.ofZ i * n1_3)%js);;
        store (set_interval i') updated
      else ret tt);;;
     reps <- load repetitions updated;;
     store (set_repetitions (reps + 1)) updated;;;
     i <- load interval updated;;
     let dueDate := addDays now i in
     store (set_dueDate dueDate) updated;;;
     ret updated)%prog.

Definition getIntervalHint (card : ref) (quality now : Z) : js string :=
  (simulated <- calculateNextReview card quality now;;
   if quality <? 3 then ret "<1min"
   else
     interval <- load interval simulated;;
     ret (describeDays interval))%prog.

End FlatObj.

Module GraduatedObj.
Import Obj Graduated.

Definition calculateNextReview (card : ref) (quality now : Z) : js ref :=
  (updated <- spread card;;
   store (set_lastReviewed (Some now)) updated;;;
   if quality <? 3 then
     store (set_repetitions 0) updated;;;
     store (set_interval 0) updated;;;
     let dueDate := now + 60 * 1000 in
     store (set_dueDate dueDate) updated;;;
     ret updated
   else
     ef <- load easeFactor updated;;
     let newEF := (ef + easeDelta quality)%js in
     store (set_easeFactor (JS.Math_max n1_3 newEF)) updated;;;
     rep <- load repetitions updated;;
     if rep <? LEARNING_COUNT then
       if quality =? 5 then
         i <- lift (item GRADUATED_DAYS 0);;
         store (set_interval i) updated;;;
         store (set_repetitions (LEARNING_COUNT + 1)) updated;;;
         i <- load interval updated;;
         let dueDate := addDays now i in
         store (set_dueDate dueDate) updated;;;
         ret updated
       else
         minutes <- lift (item LEARNING_STEPS_MIN rep);;
         store (set_interval 0) updated;;;
         store (set_repetitions (rep + 1)) updated;;;
         let dueDate := now + minutes * 60 * 1000 in
         store (set_dueDate dueDate) updated;;;
         ret updated
     else
       let gradIndex := rep - LEARNING_COUNT in
       if gradIndex <? GRADUATED_COUNT then
         (if (quality =? 5) && (gradIndex + 1 <? GRADUATED_COUNT) then
            i <- lift (item GRADUATED_DAYS (gradIndex + 1));;
            store (set_interval i) updated;;;
            store (set_repetitions (rep + 2)) updated
          else
            i <- lift (item GRADUATED_DAYS gradIndex);;
            store (set_interval i) updated;;;
            store (set_repetitions (rep + 1)) updated;;;
            if quality =? 5 then
              i <- load interval updated;;
              i' <- lift (JS.Math_round (JS.ofZ i * n1_3)%js);;
              store (set_interval i') updated
            else ret tt);;;
         i <- load interval updated;;
         let dueDate := addDays now i in
         store (set_dueDate dueDate) updated;;;
         ret updated
       else
         i <- load interval updated;;
         ef <- load easeFactor updated;;
         i' <- lift (JS.Math_round (JS.ofZ i * ef)%js);;
         store (set_interval i') updated;;;
         (if quality =? 5 then
            i <- load interval updated;;
            i' <- lift (JS.Math_round (JS.ofZ i * n1_3)%js);;
            store (set_interval i') updated
          else ret tt);;;
         store (set_repetitions (rep + 1)) updated;;;
         i <- load interval updated;;
         let dueDate := addDays now i in
         store (set_dueDate dueDate) updated;;;
         ret updated)%prog.

Definition getIntervalHint (card : ref) (quality now now' : Z) : js string :=
  (simulated <- calculateNextReview card quality now;;
   if quality <? 3 then ret "1 min"
   else
     i <- load interval simulated;;
     if i =? 0 then
       due <- load dueDate simulated;;
       ret (describeMinutes due now')
     else
       interval <- load interval simulated;;
       ret (describeDays interval))%prog.

End GraduatedObj.

(** ** The study session of [app.js]

    The module-level variables of [app.js] ([studyQueue],
    [currentCardIndex], [reviewedCount], [lastAction], [isPracticeMode])
    and the [cards] table of the database form the state.  The objects in
    the queue are never assigned to after they are built (the engine writes
    to its own copy only, see [Obj]), so the queue holds card values.  The
    state also records, in order, the calls made to the scheduling engine
    and to the database.  What the handlers do to the page (progress bar,
    sounds, the undo button, the daily counter of [localStorage]) is left
    out. *)

Record Action : Type := mkAction {
  action_card : Card;
  action_index : nat;
  wasInQueue : bool
}.

Inductive Call : Type :=
  | SM2_calculateNextReview (card : Card) (quality : Z)
  | CardDB_updateCard (key : string) (updates : Card).

Record State : Type := mkState {
  studyQueue : list Card;
  currentCardIndex : nat;
  reviewedCount : nat;
  lastAction : option Action;
  isPracticeMode : bool;
  cards : gmap string Card;
  calls : list Call
}.

Definition set_studyQueue (v : list Card) (st : State) : State :=
  mkState v (currentCardIndex st) (reviewedCount st) (lastAction st)
          (isPracticeMode st) (cards st) (calls st).
Definition set_currentCardIndex (v : nat) (st : State) : State :=
  mkState (studyQueue st) v (reviewedCount st) (lastAction st)
          (isPracticeMode st) (cards st) (calls st).
Definition set_reviewedCount (v : nat) (st : State) : State :=
  mkState (studyQueue st) (currentCardIndex st) v (lastAction st)
          (isPracticeMode st) (cards st) (calls st).
Definition set_lastAction (v : option Action) (st : State) : State :=
  mkState (studyQueue st) (currentCardIndex st) (reviewedCount st) v
          (isPracticeMode st) (cards st) (calls st).
Definition set_cards (v : gmap string Card) (st : State) : State :=
  mkState (studyQueue st) (currentCardIndex st) (reviewedCount st)
          (lastAction st) (isPracticeMode st) v (calls st).
Definition record_call (c : Call) (st : State) : State :=
  mkState (studyQueue st) (currentCardIndex st) (reviewedCount st)
          (lastAction st) (isPracticeMode st) (cards st) (calls st ++ [c]).

(** How an awaited promise settles. *)
Inductive Settled : Type := Fulfilled | Rejected.

Inductive Error : Type := RangeError | DexieError.

(** The result of a handler: it returns, or it throws and leaves the state
    it had reached.  [NoCurrentCard]: [studyQueue[currentCardIndex]] is
    [undefined]; the handlers are modelled for a session that has a current
    card. *)
Inductive Outcome : Type :=
  | Done (st : State)
  | Throws (e : Error) (st : State)
  | NoCurrentCard.

(** [db.cards.update(key, changes)] of Dexie: the record under [key] takes
    the fields of [changes] (here all of them); without such a record
    nothing is written. *)
Definition Dexie_update (key : string) (changes : Card)
    (table : gmap string Card) : gmap string Card :=
  match table !! key with
  | Some _ => <[key := changes]> table
  | None => table
  end.

(** [const x = a.splice(i, 1)[0]; a.push(x)] *)
Definition moveToEnd {A : Type} (i : nat) (a : list A) : list A :=
  match a !! i with
  | Some x => delete i a ++ [x]
  | None => a
  end.

(** *** The variant that updates the schedule in both modes *)

Module App.
Section WithEngine.
Variable calculateNextReview : Card -> Z -> Z -> option Card.

(** [handleReview(quality)], for the clock reading [now] and the way the
    promise of [CardDB.updateCard] settles. *)
Definition handleReview (quality now : Z) (io : Settled) (st : State) : Outcome :=
  match studyQueue st !! currentCardIndex st with
  | None => NoCurrentCard
  | Some card =>
      let st := set_lastAction
                  (Some (mkAction card (currentCardIndex st) true)) st in
      let st := record_call (SM2_calculateNextReview card quality) st in
      match calculateNextReview card quality now with
      | None => Throws RangeError st
      | Some updated =>
          let st := record_call (CardDB_updateCard (id card) updated) st in
          match io with
          | Rejected => Throws DexieError st
          | Fulfilled =>
              let st := set_cards (Dexie_update (id card) updated (cards st)) st in
              if quality =? 0 then
                let st := set_studyQueue
                            (<[currentCardIndex st := updated]> (studyQueue st)) st in
                let st := set_studyQueue
                            (moveToEnd (currentCardIndex st) (studyQueue st)) st in
                Done st
              else
                let st := set_reviewedCount (S (reviewedCount st)) st in
                let st := set_currentCardIndex (S (currentCardIndex st)) st in
                Done st
          end
      end
  end.

(** [undoLastAction()] *)
Definition undoLastAction (io : Settled) (st : State) : Outcome :=
  match lastAction st with
  | None => Done st
  | Some last =>
      let card := action_card last in
      let index := action_index last in
      let st := record_call (CardDB_updateCard (id card) card) st in
      match io with
      | Rejected => Throws DexieError st
      | Fulfilled =>
          let st := set_cards (Dexie_update (id card) card (cards st)) st in
          let st :=
            if wasInQueue last then
              let st := set_studyQueue
                          (filter (fun c => id c <> id card) (studyQueue st)) st in
              let st := set_studyQueue
                          (splice_insert index card (studyQueue st)) st in
              let st := set_currentCardIndex index st in
              if (0 <? reviewedCount st)%nat
              then set_reviewedCount (reviewedCount st - 1)%nat st
              else st
            else st in
          let st := set_lastAction None st in
          Done st
      end
  end.

End WithEngine.
End App.

(** *** The variant whose practice mode leaves the schedule alone *)

Module AppStudyOnly.
Section WithEngine.
Variable calculateNextReview : Card -> Z -> Z -> option Card.

Definition handleReview (quality now : Z) (io : Settled) (st : State) : Outcome :=
  match studyQueue st !! currentCardIndex st with
  | None => NoCurrentCard
  | Some card =>
      let st :=
        if negb (isPracticeMode st)
        then set_lastAction (Some (mkAction card (currentCardIndex st) true)) st
        else st in
      if isPracticeMode st then
        if quality =? 0 then
          Done (set_studyQueue (moveToEnd (currentCardIndex st) (studyQueue st)) st)
        else
          let st := set_reviewedCount (S (reviewedCount st)) st in
          let st := set_currentCardIndex (S (currentCardIndex st)) st in
          Done st
      else
        let st := record_call (SM2_calculateNextReview card quality) st in
        match calculateNextReview card quality now with
        | None => Throws RangeError st
        | Some updated =>
            let st := record_call (CardDB_updateCard (id card) updated) st in
            match io with
            | Rejected => Throws DexieError st
            | Fulfilled =>
                let st := set_cards (Dexie_update (id card) updated (cards st)) st in
                if quality =? 0 then
                  let st := set_studyQueue
                              (<[currentCardIndex st := updated]> (studyQueue st)) st in
                  let st := set_studyQueue
                              (moveToEnd (currentCardIndex st) (studyQueue st)) st in
                  Done st
                else
                  let st := set_reviewedCount (S (reviewedCount st)) st in
                  let st := set_currentCardIndex (S (currentCardIndex st)) st in
                  Done st
            end
        end
  end.

Definition undoLastAction (io : Settled) (st : State) : Outcome :=
  match lastAction st with
  | None => Done st
  | Some last =>
      if isPracticeMode st then Done st
      else
        let card := action_card last in
        let index := action_index last in
        let st := record_call (CardDB_updateCard (id card) card) st in
        match io with
        | Rejected => Throws DexieError st
        | Fulfilled =>
            let st := set_cards (Dexie_update (id card) card (cards st)) st in
            let st :=
              if wasInQueue last then
                let st := set_studyQueue
                            (filter (fun c => id c <> id card) (studyQueue st)) st in
                let st := set_studyQueue
                            (splice_insert index card (studyQueue st)) st in
                let st := set_currentCardIndex index st in
                if (0 <? reviewedCount st)%nat
                then set_reviewedCount (reviewedCount st - 1)%nat st
                else st
              else st in
            let st := set_lastAction None st in
            Done st
        end
  end.

End WithEngine.
End AppStudyOnly.

(** ** Starting a session

    [db.js] reads the [cards] table through its indexes.  IndexedDB lists
    the records of a table by primary key, and the records an index selects
    by the indexed value and then by primary key; keys are compared as
    strings.  The indexed value of a card is the text of its due date, as
    [toISOString] wrote it. *)

Definition compareKeys (a b : string) : Z :=
  match String.compare a b with
  | Lt => -1
  | Eq => 0
  | Gt => 1
  end.

(** [db.cards.toArray()] *)
Definition getAllCards (table : gmap string Card) : list Card :=
  (Array_sort (fun p q => compareKeys p.1 q.1) (map_to_list table)).*2.

(** [getDueCards()]:
    [db.cards.where('dueDate').belowOrEqual(now).toArray()] with
    [now = new Date().toISOString()], for the function [toISOString] that
    writes the text of an instant and the clock reading [now].  The index
    compares the texts, not the instants. *)
Definition getDueCards (toISOString : Z -> string) (now : Z)
    (table : gmap string Card) : list Card :=
  let now := toISOString now in
  (Array_sort
     (fun p q =>
        let byDueDate :=
          compareKeys (toISOString (dueDate p.2)) (toISOString (dueDate q.2)) in
        if byDueDate =? 0 then compareKeys p.1 q.1 else byDueDate)
     (filter (fun p => compareKeys (toISOString (dueDate p.2)) now <= 0)
        (map_to_list table))).*2.

Definition set_isPracticeMode (v : bool) (st : State) : State :=
  mkState (studyQueue st) (currentCardIndex st) (reviewedCount st)
          (lastAction st) v (cards st) (calls st).

(** [startStudy()], the same in both variants of [app.js], for the
    [SM2.sortCardsForReview] in use, the [toISOString] and the clock reading
    of [getDueCards] and the way its promise settles.  Without due cards it
    shows a toast and returns. *)
Definition startStudy (sortCardsForReview : list Card -> list Card)
    (toISOString : Z -> string) (now : Z) (io : Settled) (st : State) : Outcome :=
  let st := set_isPracticeMode false st in
  match io with
  | Rejected => Throws DexieError st
  | Fulfilled =>
      let dueCards := getDueCards toISOString now (cards st) in
      if (length dueCards =? 0)%nat then Done st
      else
        let st := set_studyQueue (sortCardsForReview dueCards) st in
        let st := set_currentCardIndex 0 st in
        let st := set_reviewedCount 0 st in
        let st := set_lastAction None st in
        Done st
  end.

(** [[array[i], array[j]] = [array[j], array[i]]], for indexes inside the
    array. *)
Definition swap {A : Type} (i j : nat) (array : list A) : list A :=
  match array !! i, array !! j with
  | Some x, Some y => <[j := x]> (<[i := y]> array)
  | _, _ => array
  end.

(** The loop of [shuffleArray], from [i] down to 1; [random i] is the value
    of [Math.floor(Math.random() * (i + 1))] in the round of [i]. *)
Fixpoint shuffleFrom {A : Type} (random : nat -> nat) (i : nat)
    (array : list A) : list A :=
  match i with
  | O => array
  | S i' => let j := random i in shuffleFrom random i' (swap i j array)
  end.

(** [shuffleArray(array)] *)
Definition shuffleArray {A : Type} (random : nat -> nat) (array : list A) : list A :=
  shuffleFrom random (length array - 1) array.

Module AppStart.

(** [startPractice()] of the variant that updates the schedule in both
    modes: all cards, the soonest due first. *)
Definition startPractice (io : Settled) (st : State) : Outcome :=
  let st := set_isPracticeMode true st in
  match io with
  | Rejected => Throws DexieError st
  | Fulfilled =>
      let allCards := getAllCards (cards st) in
      if (length allCards =? 0)%nat then Done st
      else
        let st := set_studyQueue
                    (Array_sort (fun a b => dueDate a - dueDate b) allCards) st in
        let st := set_currentCardIndex 0 st in
        let st := set_reviewedCount 0 st in
        let st := set_lastAction None st in
        Done st
  end.

End AppStart.

Module AppStudyOnlyStart.

(** [startPractice()] of the other variant: all cards, shuffled. *)
Definition startPractice (random : nat -> nat) (io : Settled) (st : State)
    : Outcome :=
  let st := set_isPracticeMode true st in
  match io with
  | Rejected => Throws DexieError st
  | Fulfilled =>
      let allCards := getAllCards (cards st) in
      if (length allCards =? 0)%nat then Done st
      else
        let st := set_studyQueue (shuffleArray random allCards) st in
        let st := set_currentCardIndex 0 st in
        let st := set_reviewedCount 0 st in
        let st := set_lastAction None st in
        Done st
  end.

End AppStudyOnlyStart.

(** ** [js/import.js]: the parser of the text format

    The parser looks at its text one UTF-16 code unit at a time, so a text
    is here the list of its code units. *)

Module ImportParser.

Definition JSString : Type := list N.

Definition newline : N := 10.

Definition comma : N := 44.

(** The code units that [String.prototype.trim] removes: the white space
    and the line terminators of ECMAScript. *)
Definition isWhiteSpace (c : N) : bool :=
  ((c =? 0x9) || (c =? 0xA) || (c =? 0xB) || (c =? 0xC) || (c =? 0xD) ||
   (c =? 0x20) || (c =? 0xA0) || (c =? 0x1680) ||
   ((0x2000 <=? c) && (c <=? 0x200A)) ||
   (c =? 0x2028) || (c =? 0x2029) || (c =? 0x202F) || (c =? 0x205F) ||
   (c =? 0x3000) || (c =? 0xFEFF))%N.

Fixpoint trimStart (s : JSString) : JSString :=
  match s with
  | [] => []
  | c :: s' => if isWhiteSpace c then trimStart s' else s
  end.

Definition trimEnd (s : JSString) : JSString := rev (trimStart (rev s)).

(** [s.trim()] *)
Definition trim (s : JSString) : JSString := trimEnd (trimStart s).

(** [s.split(sep)] for a separator of one code unit. *)
Fixpoint split (sep : N) (s : JSString) : list JSString :=
  match s with
  | [] => [[]]
  | c :: s' =>
      if (c =? sep)%N then [] :: split sep s'
      else
        match split sep s' with
        | line :: lines => (c :: line) :: lines
        | [] => [[c]]
        end
  end.

(** [s.indexOf(c)] for one code unit: -1 when [c] is not in [s]. *)
Fixpoint indexOf (c : N) (s : JSString) : Z :=
  match s with
  | [] => -1
  | d :: s' =>
      if (d =? c)%N then 0
      else
        let i := indexOf c s' in
        if i =? -1 then -1 else i + 1
  end.

(** [s.substring(start, end)] and [s.substring(start)], for indexes that are
    integers: each is taken into [0 .. s.length], and the smaller comes
    first. *)
Definition substring (s : JSString) (start : Z) (end_ : option Z) : JSString :=
  let len := Z.of_nat (length s) in
  let clamp i := Z.min (Z.max i 0) len in
  let a := clamp start in
  let b := match end_ with Some e => clamp e | None => len end in
  let from := Z.to_nat (Z.min a b) in
  let to := Z.to_nat (Z.max a b) in
  take (to - from) (drop from s).

Record Parsed : Type := mkParsed { front : JSString; back : JSString }.

(** The body of the loop of [parseImportText] for one line: the array of
    cards after the line. *)
Definition parseLine (cards : list Parsed) (line : JSString) : list Parsed :=
  let trimmed := trim line in
  if bool_decide (trimmed = []) then cards
  else
    let commaIndex := indexOf comma trimmed in
    if commaIndex =? -1 then cards
    else
      let front := trim (substring trimmed 0 (Some commaIndex)) in
      let back := trim (substring trimmed (commaIndex + 1) None) in
      if bool_decide (front = []) || bool_decide (back = []) then cards
      else cards ++ [mkParsed front back].

(** [parseImportText(text)] for a text that is a string. *)
Definition parseImportText (text : JSString) : list Parsed :=
  if bool_decide (text = []) then []
  else
    let lines := split newline text in
    foldl parseLine [] lines.

(** [countValidCards(text)] *)
Definition countValidCards (text : JSString) : nat :=
  length (parseImportText text).

(** [lines.join('\n')] *)
Fixpoint join (lines : list JSString) : JSString :=
  match lines with
  | [] => []
  | [line] => line
  | line :: rest => line ++ newline :: join rest
  end.

End ImportParser.

(** ** [app.js]: the duplicates of an import

    [submitImport] builds the cards of the text with
    [ImportParser.importFromText] and keeps those whose front, in lower case
    and trimmed, is neither the front of a card of the table nor the front
    of an earlier card of the import. *)

Section SubmitImport.

(** [String.prototype.toLowerCase] and [String.prototype.trim] on the text
    of a card. *)
Variables toLowerCase trim : string -> string.

(** The [for] loop of [submitImport]: [newCards] and [duplicates] after the
    cards [cards], from their values and the set [existingFronts] before
    them. *)
Fixpoint detectDuplicates (existingFronts : gset string) (newCards : list Card)
    (duplicates : list string) (cards : list Card) : list Card * list string :=
  match cards with
  | [] => (newCards, duplicates)
  | card :: rest =>
      let frontLower := trim (toLowerCase (front card)) in
      if decide (frontLower ∈ existingFronts) then
        detectDuplicates existingFronts newCards (duplicates ++ [front card]) rest
      else
        detectDuplicates ({[frontLower]} ∪ existingFronts) (newCards ++ [card])
          duplicates rest
  end.

(** [submitImport()] up to its call of [CardDB.addCards]: the cards that it
    adds to the table, for the cards [cards] of the text, the cards
    [existingCards] that [CardDB.getAllCards] returns and the answer
    [proceed] of the user to [confirm], which is asked when some cards are
    duplicates and some are not.  [None]: nothing is added. *)
Definition submitImport (cards existingCards : list Card) (proceed : bool)
    : option (list Card) :=
  if (length cards =? 0)%nat then None
  else
    let existingFronts : gset string :=
      list_to_set ((fun c => trim (toLowerCase (front c))) <$> existingCards) in
    let '(newCards, duplicates) := detectDuplicates existingFronts [] [] cards in
    if (0 <? length duplicates)%nat && (0 <? length newCards)%nat then
      if negb proceed then None else Some newCards
    else if (0 <? length duplicates)%nat && (length newCards =? 0)%nat then None
    else if (0 <? length newCards)%nat then Some newCards
    else None.

End SubmitImport.

(** ** [app.js]: the streak and the count of the day

    Both are kept in [localStorage], a table of texts.  The day of an
    instant is the text that [toDateString] gives for it in the time zone
    of the browser; numbers are read with [parseInt] and written with
    [toString]. *)

Definition Storage : Type := gmap string string.

(** [localStorage.getItem(key)]: [None] is [null]. *)
Definition getItem (key : string) (storage : Storage) : option string :=
  storage !! key.

(** [localStorage.setItem(key, value)] *)
Definition setItem (key value : string) (storage : Storage) : Storage :=
  <[key := value]> storage.

(** [item || '0']: [null] and the empty text are falsy. *)
Definition orZero (item : option string) : string :=
  match item with
  | Some text => if decide (text = "") then "0" else text
  | None => "0"
  end.

Section Streak.

(** [new Date(t).toDateString()] *)
Variable toDateString : Z -> string.

(** [parseInt(text, 10)] and [Number.prototype.toString()] *)
Variable parseInt : string -> JS.Number.
Variable toString : JS.Number -> string.

(** [updateStreak()]: the streak it shows and the storage it leaves, for
    the readings [now] of [new Date()] and [now'] of [Date.now()]. *)
Definition updateStreak (now now' : Z) (storage : Storage) : JS.Number * Storage :=
  let streak := parseInt (orZero (getItem "kapanak-streak" storage)) in
  let lastStudy := getItem "kapanak-last-study" storage in
  let today := toDateString now in
  let yesterday := toDateString (now' - 86400000) in
  let currentStreak := streak in
  if negb (bool_decide (lastStudy = Some today)) &&
     negb (bool_decide (lastStudy = Some yesterday))
  then
    let currentStreak := JS.ofZ 0 in
    (currentStreak, setItem "kapanak-streak" "0" storage)
  else (currentStreak, storage).

(** [recordStudySession()] *)
Definition recordStudySession (now now' : Z) (storage : Storage) : Storage :=
  let today := toDateString now in
  let lastStudy := getItem "kapanak-last-study" storage in
  let yesterday := toDateString (now' - 86400000) in
  let streak := parseInt (orZero (getItem "kapanak-streak" storage)) in
  let streak :=
    if bool_decide (lastStudy = Some today) then streak
    else if bool_decide (lastStudy = Some yesterday) then (streak + JS.ofZ 1)%js
    else JS.ofZ 1 in
  let storage := setItem "kapanak-streak" (toString streak) storage in
  setItem "kapanak-last-study" today storage.

(** [incrementTodayCount()]: the count it shows and the storage it
    leaves. *)
Definition incrementTodayCount (now : Z) (storage : Storage) : JS.Number * Storage :=
  let today := toDateString now in
  let storedDate := getItem "kapanak-review-date" storage in
  let '(count, storage) :=
    if bool_decide (storedDate = Some today) then
      (parseInt (orZero (getItem "kapanak-today-count" storage)), storage)
    else (JS.ofZ 0, setItem "kapanak-review-date" today storage) in
  let count := (count + JS.ofZ 1)%js in
  (count, setItem "kapanak-today-count" (toString count) storage).

(** The count of the day that [updateStats()] shows. *)
Definition todayCount (now : Z) (storage : Storage) : JS.Number :=
  let today := toDateString now in
  let storedDate := getItem "kapanak-review-date" storage in
  if bool_decide (storedDate = Some today) then
    parseInt (orZero (getItem "kapanak-today-count" storage))
  else JS.ofZ 0.

(** What [endStudy()] of the variant with a streak does to the storage. *)
Definition endStudy (st : State) (now now' : Z) (storage : Storage) : Storage :=
  if (0 <? reviewedCount st)%nat then recordStudySession now now' storage
  else storage.

End Streak.

(** ** [app.js]: a review with what it does beside the session

    In the variant that updates the schedule in both modes, [handleReview]
    also counts the review of the day and plays a sound, and its call of
    [showCard()] ends the session, with [endStudy()], when the queue is
    used up.  The other variant has no count, no streak and no sound: its
    [endStudy()] only writes to the document.  The page is the session
    together with [localStorage], the setting [soundEnabled] and the sounds
    played so far.  What the handlers write to the document (texts,
    classes, the screen shown, the confetti) is left out. *)

Record Page : Type := mkPage {
  session : State;
  localStorage : Storage;
  soundEnabled : bool;
  played : list string
}.

Definition set_session (v : State) (p : Page) : Page :=
  mkPage v (localStorage p) (soundEnabled p) (played p).

Definition set_localStorage (v : Storage) (p : Page) : Page :=
  mkPage (session p) v (soundEnabled p) (played p).

(** [playSound(type)]: nothing when the sound is off. *)
Definition playSound (type : string) (p : Page) : Page :=
  if negb (soundEnabled p) then p
  else mkPage (session p) (localStorage p) (soundEnabled p) (played p ++ [type]).

Inductive PageOutcome : Type :=
  | Shown (p : Page)
  | Failed (e : Error) (p : Page)
  | NoCard.

Module AppPage.
Section WithBuiltins.
Variable calculateNextReview : Card -> Z -> Z -> option Card.
Variable toDateString : Z -> string.
Variable parseInt : string -> JS.Number.
Variable toString : JS.Number -> string.

(** [endStudy()], for the clock readings of [recordStudySession]. *)
Definition endStudy (ended ended' : Z) (p : Page) : Page :=
  let p :=
    if (0 <? reviewedCount (session p))%nat then
      set_localStorage
        (recordStudySession toDateString parseInt toString ended ended'
           (localStorage p)) p
    else p in
  playSound "complete" p.

(** [showCard()] *)
Definition showCard (ended ended' : Z) (p : Page) : Page :=
  if (length (studyQueue (session p)) <=? currentCardIndex (session p))%nat
  then endStudy ended ended' p
  else p.

(** [handleReview(quality)], for the clock readings [now] of the engine,
    [counted] of [incrementTodayCount] and [ended], [ended'] of
    [recordStudySession], and the way the promise of [CardDB.updateCard]
    settles. *)
Definition handleReview (quality now counted ended ended' : Z) (io : Settled)
    (p : Page) : PageOutcome :=
  let st := session p in
  match studyQueue st !! currentCardIndex st with
  | None => NoCard
  | Some card =>
      let st := set_lastAction
                  (Some (mkAction card (currentCardIndex st) true)) st in
      let st := record_call (SM2_calculateNextReview card quality) st in
      match calculateNextReview card quality now with
      | None => Failed RangeError (set_session st p)
      | Some updated =>
          let st := record_call (CardDB_updateCard (id card) updated) st in
          match io with
          | Rejected => Failed DexieError (set_session st p)
          | Fulfilled =>
              let st := set_cards (Dexie_update (id card) updated (cards st)) st in
              let p := set_session st p in
              let p := set_localStorage
                         (incrementTodayCount toDateString parseInt toString
                            counted (localStorage p)).2 p in
              let p := if quality =? 0 then playSound "again" p
                       else playSound "success" p in
              let st := session p in
              let st :=
                if quality =? 0 then
                  let st := set_studyQueue
                              (<[currentCardIndex st := updated]> (studyQueue st))
                              st in
                  set_studyQueue (moveToEnd (currentCardIndex st) (studyQueue st)) st
                else
                  let st := set_reviewedCount (S (reviewedCount st)) st in
                  set_currentCardIndex (S (currentCardIndex st)) st in
              Shown (showCard ended ended' (set_session st p))
          end
      end
  end.

End WithBuiltins.
End AppPage.

(** * The vocabulary of the statements *)

Definition is_finite (x : JS.Number) : bool :=
  match x with
  | S754_zero _ | S754_finite _ _ _ => true
  | _ => false
  end.

(** Successive reviews of one card: each rating comes with the clock reading
    of its review. *)
Fixpoint reviewAll (engine : Card -> Z -> Z -> option Card) (card : Card)
    (ratings : list (Z * Z)) : option Card :=
  match ratings with
  | [] => Some card
  | (quality, now) :: rest =>
      card' ← engine card quality now; reviewAll engine card' rest
  end.

(** The card left by a failed review. *)
Definition resetCard (card : Card) (now : Z) : Card :=
  mkCard (id card) (front card) (back card) 0 (easeFactor card) 0
         (now + 60 * 1000) (Some now) (createdAt card).

(** The schedule the specification announces for three Good ratings of a
    card, under the flat schedule. *)
Definition announced_three_good_schedule (card : Card) (t1 t2 t3 : Z) : Prop :=
  exists c1 c2 c3,
    Flat.calculateNextReview card 3 t1 = Some c1 /\
    Flat.calculateNextReview c1 3 t2 = Some c2 /\
    Flat.calculateNextReview c2 3 t3 = Some c3 /\
    repetitions c1 = 1 /\ interval c1 = 1 /\
    repetitions c2 = 2 /\ interval c2 = 6 /\
    repetitions c3 = 3 /\ interval c3 = 16.

(** [lo < x < hi] *)
Definition strictly_between (lo hi x : JS.Number) : Prop :=
  JS.ltb lo x = true /\ JS.ltb x hi = true.

(** A comparator that [Array.prototype.sort] can rely on. *)
Record Consistent {A : Type} (compare : A -> A -> Z) : Prop := {
  consistent_total : forall x y, 0 < compare x y -> compare y x <= 0;
  consistent_trans :
    forall x y z, compare x y <= 0 -> compare y z <= 0 -> compare x z <= 0
}.

(** The common shape of the two comparators: the cards of the first tier,
    then the due date, then the collator on the front text. *)
Definition tierCompare (firstTier : Card -> bool)
    (collator : string -> string -> Z) (a b : Card) : Z :=
  if firstTier a && negb (firstTier b) then -1
  else if negb (firstTier a) && firstTier b then 1
  else if dueDate a <? dueDate b then -1
  else if dueDate a >? dueDate b then 1
  else collator (front a) (front b).

(** The order the specification asks of a sorted queue: a card of the first tier stands
    before every card outside it, whatever the due dates; inside a tier the
    due dates ascend; cards of one tier due at the same instant are ordered
    by the collator. *)
Definition ordered_by_tier (firstTier : Card -> bool)
    (collator : string -> string -> Z) (sorted : list Card) : Prop :=
  forall (i j : nat) (a b : Card),
    sorted !! i = Some a -> sorted !! j = Some b ->
    (firstTier a = true -> firstTier b = false -> (i < j)%nat) /\
    ((i < j)%nat -> firstTier a = firstTier b -> dueDate a <= dueDate b) /\
    ((i < j)%nat -> firstTier a = firstTier b -> dueDate a = dueDate b ->
     collator (front a) (front b) <= 0).

Definition lengthCollator : string -> Sensitivity -> string -> string -> Z :=
  fun _ _ x y => Z.of_nat (String.length x) - Z.of_nat (String.length y).

(** The state after [handleReview] has run to its end in a session that
    computes and stores the schedule. *)
Definition reviewed (st : State) (card updated : Card) (quality : Z) : State :=
  let i := currentCardIndex st in
  mkState
    (if quality =? 0 then moveToEnd i (<[i := updated]> (studyQueue st))
     else studyQueue st)
    (if quality =? 0 then i else S i)
    (if quality =? 0 then reviewedCount st else S (reviewedCount st))
    (Some (mkAction card i true))
    (isPracticeMode st)
    (Dexie_update (id card) updated (cards st))
    (calls st ++ [SM2_calculateNextReview card quality]
              ++ [CardDB_updateCard (id card) updated]).

(** The state in which [handleReview] throws: only the undo slot and the
    record of calls have changed. *)
Definition interrupted (st : State) (card : Card) (made : list Call) : State :=
  mkState (studyQueue st) (currentCardIndex st) (reviewedCount st)
          (Some (mkAction card (currentCardIndex st) true))
          (isPracticeMode st) (cards st) (calls st ++ made).

(** What the specification asks of the queue once the current card has been
    rated Fail. *)
Definition requeued_at_tail (st : State) (updated : Card) (out : Outcome) : Prop :=
  let i := currentCardIndex st in
  exists st',
    out = Done st' /\
    studyQueue st' = take i (studyQueue st) ++ drop (S i) (studyQueue st) ++ [updated] /\
    length (studyQueue st') = length (studyQueue st) /\
    last (studyQueue st') = Some updated /\
    currentCardIndex st' = i /\
    reviewedCount st' = reviewedCount st /\
    (forall next, studyQueue st !! S i = Some next ->
                  studyQueue st' !! i = Some next).

(** A session of three new cards in study mode. *)
Definition threeCards : State :=
  let c0 := createCard "c0" "kot" "cat" 1000 in
  let c1 := createCard "c1" "pies" "dog" 1000 in
  let c2 := createCard "c2" "dom" "house" 1000 in
  mkState [c0; c1; c2] 0 0 None false
          (list_to_map [("c0", c0); ("c1", c1); ("c2", c2)]) [].





(** What the specification asks of [undo] after a review of [card] in the
    session state [st]: [out] is the outcome of the first call of [undo]. *)
Definition undone (undo : Settled -> State -> Outcome)
    (st : State) (card : Card) (out : Outcome) : Prop :=
  let i := currentCardIndex st in
  exists st2,
    out = Done st2 /\
    cards st2 !! id card = Some card /\
    (cards st !! id card = Some card -> cards st2 = cards st) /\
    studyQueue st2 =
      splice_insert i card (filter (fun c => id c <> id card) (studyQueue st)) /\
    (NoDup (id <$> studyQueue st) -> studyQueue st2 = studyQueue st) /\
    currentCardIndex st2 = i /\
    reviewedCount st2 = reviewedCount st /\
    lastAction st2 = None /\
    forall io, undo io st2 = Done st2.

(** Every object of [h] is in [h'] with the same fields. *)
Definition preserved (h h' : gmap positive Card) : Prop :=
  forall r c, h !! r = Some c -> h' !! r = Some c.

(** What the specification asks of a preview [run], started in the heap [h]: it
    gives [hint] and leaves every object of [h] as it was; run once more,
    in the heap it left, it gives [hint] again and again leaves every object
    as it was. *)
Definition side_effect_free (h : gmap positive Card) (run : Obj.js string)
    (hint : option string) : Prop :=
  exists h' h'',
    run h = (hint, h') /\ preserved h h' /\
    run h' = (hint, h'') /\ preserved h' h''.

(** The sign of a number: [true] for the numbers that are zero or above
    (NaN has none). *)
Definition is_nonneg (x : JS.Number) : bool :=
  match x with
  | S754_zero false | S754_infinity false | S754_finite false _ _ => true
  | _ => false
  end.

(** The graduated schedule as the header of the file gives it: the interval
    a card with [rep] repetitions gets for Good, and for Easy (which takes
    the interval of the next step, and on the last step the bonus). *)
Definition graduatedGoodInterval (rep : Z) : Z :=
  default 0 (item [0; 1; 3; 7; 14] rep).
Definition graduatedEasyInterval (rep : Z) : Z :=
  default 0 (item [1; 3; 7; 14; 18] rep).

(** What [calculateNextReview] does to the heap [h] when its functional
    reading gives [result]: the objects of [h] are left as they were, and
    the card it returns is a new object, one that [h] did not hold. *)
Definition returns_new_object (h : gmap positive Card) (run : Obj.js Obj.ref)
    (result : option Card) : Prop :=
  exists o h',
    run h = (o, h') /\ preserved h h' /\
    match result with
    | Some card' =>
        exists r, o = Some r /\ h !! r = None /\ h' !! r = Some card'
    | None => o = None
    end.

(** The records of the [cards] table are stored under their [id]. *)
Definition table_keyed (table : gmap string Card) : Prop :=
  forall k c, table !! k = Some c -> id c = k.

(** A sound session: no two cards of the queue have the same [id]; every
    card of the queue is a record of the table; and from the cursor on, the
    queue holds the cards as the table has them, so that a review starts
    from the stored schedule. *)
Definition session_ok (st : State) : Prop :=
  NoDup (id <$> studyQueue st) /\
  table_keyed (cards st) /\
  (forall c, c ∈ studyQueue st -> is_Some (cards st !! id c)) /\
  (forall (i : nat) c,
     (currentCardIndex st <= i)%nat -> studyQueue st !! i = Some c ->
     cards st !! id c = Some c).

(** The invariant of a session: it is sound, and so is the session that
    [undo] would give back. *)
Definition session_invariant (st : State) : Prop :=
  session_ok st /\
  forall st', App.undoLastAction Fulfilled st = Done st' -> session_ok st'.

(** [P] holds of the state in which a handler ends, however it ends. *)
Definition afterwards (out : Outcome) (P : State -> Prop) : Prop :=
  match out with
  | Done st' | Throws _ st' => P st'
  | NoCurrentCard => True
  end.

(** The engines of [sm2.js]. *)
Definition is_sm2 (engine : Card -> Z -> Z -> option Card) : Prop :=
  engine = Flat.calculateNextReview \/ engine = Graduated.calculateNextReview.

(** [undo] gives back the queue, the cursor and the table of [st], with the
    count [count] of reviewed cards and an empty slot. *)
Definition gives_back (st : State) (count : nat) (out : Outcome) : Prop :=
  exists st2,
    out = Done st2 /\
    studyQueue st2 = studyQueue st /\
    currentCardIndex st2 = currentCardIndex st /\
    cards st2 = cards st /\
    reviewedCount st2 = count /\
    lastAction st2 = None.

(** [card] is a record of the table that the index of the due dates gives
    as due at [now]: the text of its due date is, in the order of strings,
    not above the text of [now]. *)
Definition is_due (toISOString : Z -> string) (table : gmap string Card)
    (now : Z) (card : Card) : Prop :=
  table !! id card = Some card /\
  compareKeys (toISOString (dueDate card)) (toISOString now) <= 0.

(** The review sorts of [sm2.js], for a collator. *)
Definition is_review_sort (sort : list Card -> list Card) : Prop :=
  exists Intl_Collator,
    sort = Flat.sortCardsForReview Intl_Collator \/
    sort = Graduated.sortCardsForReview Intl_Collator.

(** A run of reviews whose writes are fulfilled, up to the first that does
    not complete. *)
Fixpoint reviewRun (engine : Card -> Z -> Z -> option Card)
    (ratings : list (Z * Z)) (st : State) : Outcome :=
  match ratings with
  | [] => Done st
  | (quality, now) :: rest =>
      match App.handleReview engine quality now Fulfilled st with
      | Done st' => reviewRun engine rest st'
      | out => out
      end
  end.

(** The ratings of a run that are not "Again". *)
Definition passes (ratings : list (Z * Z)) : nat :=
  length (filter (fun r => r.1 <> 0) ratings).

(** The texts of the due dates of the table compare with the text of [now]
    as the instants do. *)
Definition ordered_as_instants (toISOString : Z -> string)
    (table : gmap string Card) (now : Z) : Prop :=
  forall c, table !! id c = Some c ->
    compareKeys (toISOString (dueDate c)) (toISOString now) <= 0 <->
    dueDate c <= now.

(** What [startStudy] makes of the state [st] at the clock reading [now]. *)
Definition study_started (sort : list Card -> list Card)
    (toISOString : Z -> string) (now : Z) (st : State) (out : Outcome) : Prop :=
  exists st',
    out = Done st' /\
    cards st' = cards st /\ isPracticeMode st' = false /\
    ((exists c, is_due toISOString (cards st) now c) ->
     (forall c, c ∈ studyQueue st' <-> is_due toISOString (cards st) now c) /\
     (ordered_as_instants toISOString (cards st) now ->
      forall c, c ∈ studyQueue st' <->
                cards st !! id c = Some c /\ dueDate c <= now) /\
     studyQueue st' = sort (getDueCards toISOString now (cards st)) /\
     currentCardIndex st' = 0%nat /\ reviewedCount st' = 0%nat /\
     lastAction st' = None /\ session_invariant st') /\
    ((forall c, ~ is_due toISOString (cards st) now c) ->
     studyQueue st' = studyQueue st /\
     currentCardIndex st' = currentCardIndex st /\
     reviewedCount st' = reviewedCount st /\
     lastAction st' = lastAction st).

(** What a review in the practice mode of the variant that leaves the
    schedule alone does: it moves in the queue and nothing else. *)
Definition only_moves_in_queue (st : State) (card : Card) (quality : Z)
    (out : Outcome) : Prop :=
  let i := currentCardIndex st in
  exists st',
    out = Done st' /\
    cards st' = cards st /\ calls st' = calls st /\
    lastAction st' = lastAction st /\ isPracticeMode st' = true /\
    (quality = 0 ->
     studyQueue st' = take i (studyQueue st) ++ drop (S i) (studyQueue st) ++ [card] /\
     currentCardIndex st' = i /\ reviewedCount st' = reviewedCount st) /\
    (quality <> 0 ->
     studyQueue st' = studyQueue st /\
     currentCardIndex st' = S i /\ reviewedCount st' = S (reviewedCount st)).

(** What [startPractice] makes of the state [st]. *)
Definition practice_started (st : State) (out : Outcome) : Prop :=
  exists st',
    out = Done st' /\
    cards st' = cards st /\ isPracticeMode st' = true /\
    (cards st <> ∅ ->
     (forall c, c ∈ studyQueue st' <-> cards st !! id c = Some c) /\
     length (studyQueue st') = size (cards st) /\
     currentCardIndex st' = 0%nat /\ reviewedCount st' = 0%nat /\
     lastAction st' = None /\ session_invariant st') /\
    (cards st = ∅ ->
     studyQueue st' = studyQueue st /\
     currentCardIndex st' = currentCardIndex st /\
     reviewedCount st' = reviewedCount st /\
     lastAction st' = lastAction st).

(** The queue holds the cards by ascending due date. *)
Definition soonest_due_first (queue : list Card) : Prop :=
  forall (i j : nat) a b,
    (i < j)%nat -> queue !! i = Some a -> queue !! j = Some b ->
    dueDate a <= dueDate b.

(** A parsed card as the format describes it: both sides are not empty and
    have no white space at either end, the front has no comma, and neither
    side has a line break. *)
Definition well_formed (card : ImportParser.Parsed) : Prop :=
  let front := ImportParser.front card in
  let back := ImportParser.back card in
  front <> [] /\ back <> [] /\
  ImportParser.trim front = front /\ ImportParser.trim back = back /\
  (ImportParser.comma ∉ front) /\
  (ImportParser.newline ∉ front) /\ (ImportParser.newline ∉ back).

#[global] Instance well_formed_dec card : Decision (well_formed card).
Proof.
  unfold well_formed. cbv zeta. apply _.
Defined.

(** No white space at the start, at the end. *)
Definition starts_clean (s : ImportParser.JSString) : Prop :=
  match s with
  | c :: _ => ImportParser.isWhiteSpace c = false
  | [] => True
  end.

Definition ends_clean (s : ImportParser.JSString) : Prop := starts_clean (rev s).

(** White space that does not end the line. *)
Definition blank (c : N) : Prop :=
  ImportParser.isWhiteSpace c = true /\ c <> ImportParser.newline.

(** A line of the text format for [card]: "front,back", with any blanks
    around the line and around the comma. *)
Definition written_as (card : ImportParser.Parsed) (line : ImportParser.JSString)
    : Prop :=
  exists p1 p2 p3 p4,
    Forall blank (p1 ++ p2 ++ p3 ++ p4) /\
    line = p1 ++ ImportParser.front card ++ p2 ++
           ImportParser.comma :: p3 ++ ImportParser.back card ++ p4.

(** A line that the format ignores: it has no comma (so also an empty line
    and a line of blanks). *)
Definition ignored (line : ImportParser.JSString) : Prop :=
  (ImportParser.newline ∉ line) /\ (ImportParser.comma ∉ line).

(** The cards that the format gives to a list of lines. *)
Inductive reads : list ImportParser.JSString -> list ImportParser.Parsed -> Prop :=
| reads_nil : reads [] []
| reads_card card line lines cards :
    well_formed card -> written_as card line -> reads lines cards ->
    reads (line :: lines) (card :: cards)
| reads_ignored line lines cards :
    ignored line -> reads lines cards -> reads (line :: lines) cards.

(** The code units of a text of ASCII characters. *)
Definition codeUnits (text : string) : ImportParser.JSString :=
  (fun a => Ascii.N_of_ascii a) <$> String.list_ascii_of_string text.

(** The cards [newCards] that an import adds, for the cards [cards] of its
    text and the cards [existing] of the table, where [key] gives the front
    that is compared: they are cards of the text, in the order of the text;
    no two of them and none of them and a card of the table have the same
    key; and the first card of the text with a key that the table does not
    have is among them. *)
Definition without_duplicates (key : Card -> string)
    (cards existing newCards : list Card) : Prop :=
  newCards `sublist_of` cards /\
  NoDup (key <$> newCards) /\
  (forall c e, c ∈ newCards -> e ∈ existing -> key c <> key e) /\
  (forall c, c ∈ cards ->
     exists c', (c' ∈ newCards \/ c' ∈ existing) /\ key c' = key c).

(** Lower case for a text of ASCII characters. *)
Definition asciiToLowerCase (text : string) : string :=
  String.string_of_list_ascii
    ((fun a =>
        let n := Ascii.nat_of_ascii a in
        if ((65 <=? n) && (n <=? 90))%nat then Ascii.ascii_of_nat (n + 32) else a)
       <$> String.list_ascii_of_string text).

(** The text [text] of a number is read back as the number it shows. *)
Definition reads_back (parseInt : string -> JS.Number)
    (toString : JS.Number -> string) (text : string) : Prop :=
  text <> "" /\ toString (parseInt text) = text.

(** The day of an instant as the number of its day, for a browser on
    universal time. *)
Definition dayNumber (t : Z) : string := pretty (t / msPerDay).

(** The numbers below ten, written and read. *)
Definition digitToString (x : JS.Number) : string :=
  showRounded (JS.Math_round x).

Definition parseDigit (text : string) : JS.Number :=
  match text with
  | String a EmptyString => JS.ofZ (Z.of_nat (Ascii.nat_of_ascii a) - 48)
  | _ => JS.NaN
  end.

(** [n], not negative, in at least [width] decimal digits. *)
Definition padded (width : nat) (n : Z) : string :=
  let text := pretty n in
  String.string_of_list_ascii
    (replicate (width - String.length text) (Ascii.ascii_of_nat 48))
  +:+ text.

(** Year, month and day of the month of a day counted from 1 January 1970,
    in the proleptic Gregorian calendar. *)
Definition civilFromDays (days : Z) : Z * Z * Z :=
  let z := days + 719468 in
  let era := z / 146097 in
  let doe := z - era * 146097 in
  let yoe := (doe - doe / 1460 + doe / 36524 - doe / 146096) / 365 in
  let doy := doe - (365 * yoe + yoe / 4 - yoe / 100) in
  let mp := (5 * doy + 2) / 153 in
  let d := doy - (153 * mp + 2) / 5 + 1 in
  let m := if mp <? 10 then mp + 3 else mp - 9 in
  let y := yoe + era * 400 + (if m <=? 2 then 1 else 0) in
  (y, m, d).

(** [new Date(t).toISOString()] for a time value [t] in the range of
    [Date]: the years 0 to 9999 in four digits, the others with a sign and
    six digits. *)
Definition Date_toISOString (t : Z) : string :=
  let '(y, m, d) := civilFromDays (t / msPerDay) in
  let ms := t mod msPerDay in
  let year :=
    if (0 <=? y) && (y <=? 9999) then padded 4 y
    else (if y <? 0 then "-" else "+") +:+ padded 6 (Z.abs y) in
  year +:+ "-" +:+ padded 2 m +:+ "-" +:+ padded 2 d +:+ "T" +:+
  padded 2 (ms / 3600000) +:+ ":" +:+ padded 2 (ms / 60000 mod 60) +:+ ":" +:+
  padded 2 (ms / 1000 mod 60) +:+ "." +:+ padded 3 (ms mod 1000) +:+ "Z".



(** * Properties *)

(** ** Arithmetic of numbers *)

Section Rounding.

Lemma iter_pos_invariant {A : Type} (P : A -> Prop) (f : A -> A) :
  (forall x, P x -> P (f x)) ->
  forall n x, P x -> P (SpecFloat.iter_pos f n x).
Proof.
  intros Hf n. induction n as [n IH|n IH|]; intros x Hx; simpl; auto.
Qed.

Lemma shr_1_nonneg mrs : 0 <= shr_m mrs -> 0 <= shr_m (shr_1 mrs).
Proof.
  destruct mrs as [m r s]. simpl.
  destruct m as [|[p|p|]|[p|p|]]; simpl; lia.
Qed.

Lemma shr_nonneg mrs e n : 0 <= shr_m mrs -> 0 <= shr_m (fst (shr mrs e n)).
Proof.
  intros H. unfold shr. destruct n; simpl; auto.
  apply (iter_pos_invariant (fun x => 0 <= shr_m x)); auto using shr_1_nonneg.
Qed.

Lemma shr_fexp_nonneg m e l :
  0 <= m -> 0 <= shr_m (fst (shr_fexp JS.prec JS.emax m e l)).
Proof.
  intros H. unfold shr_fexp. apply shr_nonneg.
  destruct l as [|[]]; simpl; exact H.
Qed.

Lemma round_nearest_even_nonneg m l : 0 <= m -> 0 <= round_nearest_even m l.
Proof.
  intros H. destruct l as [|[]]; simpl; try lia.
  destruct (Z.even m); lia.
Qed.

(** Rounding a non-negative mantissa never yields NaN. *)
Lemma binary_round_aux_not_nan sx mx ex lx :
  0 <= mx -> binary_round_aux JS.prec JS.emax sx mx ex lx <> S754_nan.
Proof.
  intros H. unfold binary_round_aux.
  pose proof (shr_fexp_nonneg mx ex lx H) as H1.
  destruct (shr_fexp JS.prec JS.emax mx ex lx) as [mrs' e']. simpl in H1.
  pose proof (shr_fexp_nonneg _ e' loc_Exact
                (round_nearest_even_nonneg _ (loc_of_shr_record mrs') H1)) as H2.
  destruct (shr_fexp JS.prec JS.emax _ e' loc_Exact) as [mrs'' e'']. simpl in H2.
  destruct (shr_m mrs''); [discriminate| |lia].
  destruct (e'' <=? JS.emax - JS.prec); discriminate.
Qed.

Lemma binary_normalize_not_nan m e sz :
  binary_normalize JS.prec JS.emax m e sz <> S754_nan.
Proof.
  destruct m; simpl; [discriminate| |];
    unfold binary_round; destruct (shl_align _ _ _);
    apply binary_round_aux_not_nan; lia.
Qed.

(** Adding a finite number to a number gives a number. *)
Lemma add_finite_not_nan x s m e :
  x <> JS.NaN -> JS.add x (S754_finite s m e) <> JS.NaN.
Proof.
  intros Hx. destruct x; simpl; try discriminate; try congruence.
  apply binary_normalize_not_nan.
Qed.

Lemma add_not_nan x y :
  x <> JS.NaN -> is_finite y = true -> JS.add x y <> JS.NaN.
Proof.
  intros Hx Hy. destruct y as [sy| | |sy my ey]; try discriminate.
  - destruct x as [sx| | |]; simpl; try discriminate; try congruence.
    destruct sx, sy; discriminate.
  - now apply add_finite_not_nan.
Qed.

Lemma compare_None a b : SFcompare a b = None -> a = JS.NaN \/ b = JS.NaN.
Proof.
  destruct a, b; simpl; intros H; try discriminate; auto.
Qed.

Lemma leb_not_nan a b : JS.leb a b = true -> a <> JS.NaN /\ b <> JS.NaN.
Proof.
  unfold JS.leb, SFleb. intros H.
  split; intros ->; destruct a || destruct b; simpl in H; discriminate.
Qed.

(** [Math.max(a, x)] is at least [a] when both are numbers. *)
Lemma Math_max_lower_bound a x :
  JS.leb a a = true -> x <> JS.NaN -> JS.leb a (JS.Math_max a x) = true.
Proof.
  intros Ha Hx. unfold JS.Math_max.
  destruct (SFcompare a x) as [[| |]|] eqn:E.
  - destruct a as [[|]| | |]; try exact Ha.
    unfold JS.leb, SFleb. now rewrite E.
  - unfold JS.leb, SFleb. now rewrite E.
  - exact Ha.
  - apply compare_None in E as [->|E]; [discriminate Ha|contradiction].
Qed.

End Rounding.

Example Math_round_ties_go_up :
  JS.Math_round (JS.lit 25 10) = Some 3 /\
  JS.Math_round (JS.lit (-25) 10) = Some (-2) /\
  JS.Math_round (JS.lit 5 10) = Some 1 /\
  JS.Math_round (JS.lit (-7) 10) = Some (-1) /\
  JS.Math_round (JS.lit 1248 100) = Some 12.
Proof. vm_compute. repeat split. Qed.

Example literals_are_binary64 :
  n1_3 = S754_finite false 5854679515581645 (-52) /\
  n0_1 = S754_finite false 7205759403792794 (-56) /\
  n2_5 = S754_finite false 5629499534213120 (-51) /\
  easeDelta 3 = S754_finite true 5044031582654955 (-55) /\
  easeDelta 5 = n0_1.
Proof. vm_compute. repeat split. Qed.

(** ** The scheduling engine *)

Section Engine.

#[local] Opaque JS.add JS.mul JS.Math_max JS.Math_round JS.ofZ easeDelta n1_3.

Lemma easeDelta_finite quality :
  0 <= quality <= 5 -> is_finite (easeDelta quality) = true.
Proof.
  intros H.
  assert (quality = 0 \/ quality = 1 \/ quality = 2 \/
          quality = 3 \/ quality = 4 \/ quality = 5) as Hq by lia.
  destruct Hq as [->|[->|[->|[->|[->| ->]]]]]; vm_compute; reflexivity.
Qed.

Lemma n1_3_leb_refl : JS.leb n1_3 n1_3 = true.
Proof. vm_compute. reflexivity. Qed.

(** The ease of a card after a passing review, in both variants. *)
Lemma flat_pass_ease card quality now card' :
  3 <= quality ->
  Flat.calculateNextReview card quality now = Some card' ->
  easeFactor card' = JS.Math_max n1_3 (easeFactor card + easeDelta quality)%js.
Proof.
  intros Hq H. unfold Flat.calculateNextReview in H.
  destruct (Z.ltb_spec quality 3); [lia|].
  cbn in H. repeat case_match; simplify_option_eq; reflexivity.
Qed.

Lemma graduated_pass_ease card quality now card' :
  3 <= quality ->
  Graduated.calculateNextReview card quality now = Some card' ->
  easeFactor card' = JS.Math_max n1_3 (easeFactor card + easeDelta quality)%js.
Proof.
  intros Hq H. unfold Graduated.calculateNextReview in H.
  destruct (Z.ltb_spec quality 3); [lia|].
  cbn in H. repeat case_match; simplify_option_eq; reflexivity.
Qed.

Lemma flat_fail card quality now :
  quality < 3 -> Flat.calculateNextReview card quality now = Some (resetCard card now).
Proof.
  intros Hq. unfold Flat.calculateNextReview.
  destruct (Z.ltb_spec quality 3); [reflexivity|lia].
Qed.

Lemma graduated_fail card quality now :
  quality < 3 ->
  Graduated.calculateNextReview card quality now = Some (resetCard card now).
Proof.
  intros Hq. unfold Graduated.calculateNextReview.
  destruct (Z.ltb_spec quality 3); [reflexivity|lia].
Qed.

Lemma clamped_ease_ok ease quality :
  0 <= quality <= 5 ->
  JS.leb n1_3 ease = true ->
  JS.leb n1_3 (JS.Math_max n1_3 (ease + easeDelta quality)%js) = true.
Proof.
  intros Hq He. apply Math_max_lower_bound; [apply n1_3_leb_refl|].
  apply add_not_nan; [|now apply easeDelta_finite].
  now apply leb_not_nan in He.
Qed.

Lemma step_keeps_ease_floor engine card quality now card' :
  engine = Flat.calculateNextReview \/ engine = Graduated.calculateNextReview ->
  0 <= quality <= 5 ->
  JS.leb n1_3 (easeFactor card) = true ->
  engine card quality now = Some card' ->
  JS.leb n1_3 (easeFactor card') = true.
Proof.
  intros He Hq Hc H.
  destruct (Z.lt_ge_cases quality 3) as [Hf|Hp].
  - destruct He as [-> | ->];
      [rewrite flat_fail in H by lia | rewrite graduated_fail in H by lia];
      injection H as <-; exact Hc.
  - destruct He as [-> | ->];
      [apply flat_pass_ease in H | apply graduated_pass_ease in H]; try lia;
      rewrite H; now apply clamped_ease_ok.
Qed.

End Engine.

(** C4.  A failed review (any quality below 3) returns the input card with
    [repetitions = 0], [interval = 0], [dueDate] one minute (60 000 ms) after
    the clock reading and [lastReviewed] the clock reading; the ease factor
    and every other field are those of the input card, whatever its
    repetitions, interval and ease factor were.  Both variants of the
    engine return at this point. *)
Theorem fail_resets_the_card (card : Card) (quality now : Z) :
  quality < 3 ->
  Flat.calculateNextReview card quality now = Some (resetCard card now) /\
  Graduated.calculateNextReview card quality now = Some (resetCard card now) /\
  repetitions (resetCard card now) = 0 /\
  interval (resetCard card now) = 0 /\
  dueDate (resetCard card now) = now + msPerMinute /\
  easeFactor (resetCard card now) = easeFactor card.
Proof.
  intros Hq. split; [now apply flat_fail|].
  split; [now apply graduated_fail|].
  repeat split.
Qed.

Lemma fail_resets_the_card_witness :
  let card := mkCard "c7" "dom" "house" 16 (JS.lit 208 100) 3 900 (Some 100) 0 in
  Flat.calculateNextReview card 0 5000 = Some (resetCard card 5000) /\
  Graduated.calculateNextReview card 0 5000 = Some (resetCard card 5000) /\
  repetitions (resetCard card 5000) = 0 /\
  interval (resetCard card 5000) = 0 /\
  dueDate (resetCard card 5000) = 5000 + msPerMinute /\
  easeFactor (resetCard card 5000) = easeFactor card.
Proof.
  intros card. apply (fail_resets_the_card card 0 5000). lia.
Defined.

(** C5.  A card whose ease factor is at least 1.3 keeps an ease factor of at
    least 1.3 through every review with a rating of the scale 0..5, in both
    variants of the engine, and so through any sequence of such reviews;
    this covers the card that starts at 1.3 and is rated Good again and
    again. *)
Theorem ease_factor_stays_at_least_1_3
    (engine : Card -> Z -> Z -> option Card) (card card' : Card)
    (ratings : list (Z * Z)) :
  engine = Flat.calculateNextReview \/ engine = Graduated.calculateNextReview ->
  Forall (fun r => 0 <= r.1 <= 5) ratings ->
  JS.leb n1_3 (easeFactor card) = true ->
  reviewAll engine card ratings = Some card' ->
  JS.leb n1_3 (easeFactor card') = true.
Proof.
  intros He Hr. revert card.
  induction Hr as [|[quality now] rest Hq _ IH]; intros card Hc H; simpl in H.
  - now injection H as <-.
  - destruct (engine card quality now) as [card1|] eqn:E; [|discriminate].
    simpl in H. eapply IH; [|exact H].
    eapply step_keeps_ease_floor; eauto.
Qed.

Lemma ease_factor_stays_at_least_1_3_witness :
  let card := mkCard "c1" "kot" "cat" 0 n1_3 0 0 None 0 in
  exists card',
    reviewAll Flat.calculateNextReview card [(3, 10); (3, 20); (3, 30)] = Some card' /\
    JS.leb n1_3 (easeFactor card') = true /\
    easeFactor card' = n1_3.
Proof.
  intros card.
  destruct (reviewAll Flat.calculateNextReview card [(3, 10); (3, 20); (3, 30)])
    as [card'|] eqn:E; [|vm_compute in E; discriminate].
  exists card'. split; [reflexivity|]. split.
  - apply (ease_factor_stays_at_least_1_3 Flat.calculateNextReview card card'
             [(3, 10); (3, 20); (3, 30)]).
    + left; reflexivity.
    + repeat constructor; simpl; lia.
    + vm_compute; reflexivity.
    + exact E.
  - vm_compute in E. injection E as <-. vm_compute. reflexivity.
Defined.

(** C1, as stated, fails: the third Good rating of a new card gives an
    interval of 12 days, not 16. *)
Lemma third_good_interval_is_not_16 :
  ~ announced_three_good_schedule (createCard "c0" "kot" "cat" 0) 0 0 0.
Proof.
  intros (c1 & c2 & c3 & H1 & H2 & H3 & _ & _ & _ & _ & _ & H).
  vm_compute in H1. injection H1 as <-.
  vm_compute in H2. injection H2 as <-.
  vm_compute in H3. injection H3 as <-.
  discriminate H.
Qed.

(** C1, amended.  Under the flat schedule, from a card with
    [repetitions = 0], [interval = 0] and ease factor 2.5, three Good
    ratings give: [repetitions = 1] and [interval = 1]; then
    [repetitions = 2] and [interval = 6]; then [repetitions = 3] and
    [interval = round(6 * 2.08) = 12].  For quality 3 the ease update adds
    [0.1 - 2 * (0.08 + 2 * 0.02)], about -0.14, so the ease factor goes
    2.5, 2.36, 2.22, 2.08, and the third interval uses the ease the third
    review has just computed. *)
Theorem three_good_reviews_flat
    (uuid f b : string) (due : Z) (last : option Z) (created t1 t2 t3 : Z) :
  let card := mkCard uuid f b 0 n2_5 0 due last created in
  exists c1 c2 c3,
    Flat.calculateNextReview card 3 t1 = Some c1 /\
    Flat.calculateNextReview c1 3 t2 = Some c2 /\
    Flat.calculateNextReview c2 3 t3 = Some c3 /\
    repetitions c1 = 1 /\ interval c1 = 1 /\
    repetitions c2 = 2 /\ interval c2 = 6 /\
    repetitions c3 = 3 /\ interval c3 = 12 /\
    JS.Math_round (JS.ofZ 6 * easeFactor c3)%js = Some 12 /\
    strictly_between (JS.lit (-141) 1000) (JS.lit (-139) 1000) (easeDelta 3) /\
    strictly_between (JS.lit 235 100) (JS.lit 237 100) (easeFactor c1) /\
    strictly_between (JS.lit 221 100) (JS.lit 223 100) (easeFactor c2) /\
    strictly_between (JS.lit 207 100) (JS.lit 209 100) (easeFactor c3).
Proof.
  intros card.
  set (e1 := JS.Math_max n1_3 (n2_5 + easeDelta 3)%js).
  set (e2 := JS.Math_max n1_3 (e1 + easeDelta 3)%js).
  set (e3 := JS.Math_max n1_3 (e2 + easeDelta 3)%js).
  exists (mkCard uuid f b 1 e1 1 (addDays t1 1) (Some t1) created),
         (mkCard uuid f b 6 e2 2 (addDays t2 6) (Some t2) created),
         (mkCard uuid f b 12 e3 3 (addDays t3 12) (Some t3) created).
  split; [reflexivity|]. split; [reflexivity|].
  split; [vm_compute; reflexivity|].
  repeat split; vm_compute; reflexivity.
Qed.



(** ** The order of a review session *)

Section Sorting.
Context {A : Type} (compare : A -> A -> Z) (Hcmp : Consistent compare).

Let le (x y : A) : Prop := compare x y <= 0.

Lemma sort_insert_perm x l : Permutation (x :: l) (sort_insert compare x l).
Proof.
  induction l as [|y l IH]; simpl; [reflexivity|].
  destruct (compare x y >? 0); [|reflexivity].
  rewrite perm_swap. now constructor.
Qed.

Lemma Array_sort_perm l : Permutation l (Array_sort compare l).
Proof.
  induction l as [|x l IH]; simpl; [reflexivity|].
  rewrite <- sort_insert_perm. now constructor.
Qed.

Lemma sort_insert_sorted x l :
  StronglySorted le l -> StronglySorted le (sort_insert compare x l).
Proof.
  induction 1 as [|y l Hs IH Hy]; simpl.
  - repeat constructor.
  - destruct (Z.gtb_spec (compare x y) 0) as [Hgt|Hle].
    + constructor; [exact IH|].
      rewrite <- sort_insert_perm. constructor; [|exact Hy].
      apply (consistent_total _ Hcmp). lia.
    + constructor; [now constructor|].
      constructor; [exact Hle|].
      eapply Forall_impl; [exact Hy|].
      intros z Hz. eapply (consistent_trans _ Hcmp); eassumption.
Qed.

Lemma Array_sort_sorted l : StronglySorted le (Array_sort compare l).
Proof.
  induction l as [|x l IH]; simpl; [constructor|].
  now apply sort_insert_sorted.
Qed.

Lemma sorted_lookup (l : list A) (i j : nat) a b :
  StronglySorted le l -> (i < j)%nat ->
  l !! i = Some a -> l !! j = Some b -> compare a b <= 0.
Proof.
  intros Hs. revert i j.
  induction Hs as [|x l Hs IH Hx]; intros i j Hij Hi Hj; [discriminate|].
  destruct j as [|j]; [lia|]. simpl in Hj.
  destruct i as [|i]; simpl in Hi.
  - injection Hi as <-. rewrite Forall_forall in Hx.
    apply Hx. eapply list_elem_of_lookup_2; eauto.
  - eapply (IH i j); eauto. lia.
Qed.

End Sorting.

Ltac split_ltb :=
  repeat match goal with
         | |- context [?a <? ?b] => destruct (Z.ltb_spec a b)
         | H : context [?a <? ?b] |- _ => destruct (Z.ltb_spec a b)
         end.

Section Tiers.
Variable firstTier : Card -> bool.
Variable collator : string -> string -> Z.
Hypothesis collator_total : forall x y, 0 < collator x y -> collator y x <= 0.
Hypothesis collator_trans :
  forall x y z, collator x y <= 0 -> collator y z <= 0 -> collator x z <= 0.

Lemma tierCompare_consistent : Consistent (tierCompare firstTier collator).
Proof.
  split.
  - intros x y. unfold tierCompare. rewrite !Z.gtb_ltb.
    destruct (firstTier x), (firstTier y); simpl;
      split_ltb; try lia; apply collator_total.
  - intros x y z. unfold tierCompare. rewrite !Z.gtb_ltb.
    destruct (firstTier x), (firstTier y), (firstTier z); simpl;
      split_ltb; try lia; apply collator_trans.
Qed.

Lemma sorted_ordered_by_tier (cards : list Card) :
  ordered_by_tier firstTier collator
    (Array_sort (tierCompare firstTier collator) cards).
Proof.
  pose proof (Array_sort_sorted _ tierCompare_consistent cards) as Hs.
  intros i j a b Hi Hj.
  assert (Hlt : forall i j a b, (i < j)%nat ->
            Array_sort (tierCompare firstTier collator) cards !! i = Some a ->
            Array_sort (tierCompare firstTier collator) cards !! j = Some b ->
            tierCompare firstTier collator a b <= 0)
    by (intros; eapply sorted_lookup; eauto).
  split; [|split].
  - intros Ha Hb.
    destruct (Nat.lt_trichotomy i j) as [H|[->|H]]; [exact H| |].
    + congruence.
    + specialize (Hlt _ _ _ _ H Hj Hi). unfold tierCompare in Hlt.
      rewrite Ha, Hb in Hlt. simpl in Hlt. lia.
  - intros H Hab. specialize (Hlt _ _ _ _ H Hi Hj).
    unfold tierCompare in Hlt. rewrite Z.gtb_ltb, Hab in Hlt.
    destruct (firstTier b); simpl in Hlt; split_ltb; lia.
  - intros H Hab Hd. specialize (Hlt _ _ _ _ H Hi Hj).
    unfold tierCompare in Hlt. rewrite Z.gtb_ltb, Hab, Hd in Hlt.
    rewrite Z.ltb_irrefl in Hlt.
    destruct (firstTier b); simpl in Hlt; exact Hlt.
Qed.

End Tiers.

(** C2.  [sortCardsForReview] returns the cards it was given, ordered so
    that a card of the first tier (the graduated variant: repetitions below
    [MASTERY_THRESHOLD]; the flat variant: repetitions 0) stands before every
    card outside it whatever the due dates, due dates ascend inside a tier,
    and the last tie-break is the comparison of the front texts by the
    collator for locale "pl" with sensitivity "base".  In both variants a
    card with 0 repetitions stands before a card with [MASTERY_THRESHOLD]
    repetitions or more. *)
Theorem review_order_by_tier_then_due_date
    (Intl_Collator : string -> Sensitivity -> string -> string -> Z)
    (cards : list Card) :
  let collator := Intl_Collator "pl" SensBase in
  (forall x y, 0 < collator x y -> collator y x <= 0) ->
  (forall x y z, collator x y <= 0 -> collator y z <= 0 -> collator x z <= 0) ->
  let flat := Flat.sortCardsForReview Intl_Collator cards in
  let graduated := Graduated.sortCardsForReview Intl_Collator cards in
  Permutation cards flat /\
  ordered_by_tier (fun c => repetitions c =? 0) collator flat /\
  Permutation cards graduated /\
  ordered_by_tier (fun c => repetitions c <? Graduated.MASTERY_THRESHOLD)
    collator graduated /\
  forall sorted, sorted = flat \/ sorted = graduated ->
    forall (i j : nat) (a b : Card),
      sorted !! i = Some a -> sorted !! j = Some b ->
      repetitions a = 0 -> Graduated.MASTERY_THRESHOLD <= repetitions b ->
      (i < j)%nat.
Proof.
  intros collator Htot Htrans flat graduated.
  assert (Hf : ordered_by_tier (fun c => repetitions c =? 0) collator flat)
    by (apply (sorted_ordered_by_tier _ collator Htot Htrans)).
  assert (Hg : ordered_by_tier
                 (fun c => repetitions c <? Graduated.MASTERY_THRESHOLD)
                 collator graduated)
    by (apply (sorted_ordered_by_tier _ collator Htot Htrans)).
  split; [apply Array_sort_perm|]. split; [exact Hf|].
  split; [apply Array_sort_perm|]. split; [exact Hg|].
  intros sorted [-> | ->] i j a b Hi Hj Ha Hb.
  - apply (Hf i j a b Hi Hj).
    + rewrite Ha. reflexivity.
    + apply Z.eqb_neq. change Graduated.MASTERY_THRESHOLD with 5 in Hb. lia.
  - apply (Hg i j a b Hi Hj).
    + rewrite Ha. reflexivity.
    + apply Z.ltb_ge. exact Hb.
Qed.

Lemma review_order_by_tier_then_due_date_witness :
  let fresh := mkCard "c1" "kot" "cat" 0 n2_5 0 900 None 0 in
  let mature := mkCard "c2" "pies" "dog" 16 n2_5 5 100 (Some 50) 0 in
  let cards := [mature; fresh] in
  let collator := lengthCollator "pl" SensBase in
  let flat := Flat.sortCardsForReview lengthCollator cards in
  let graduated := Graduated.sortCardsForReview lengthCollator cards in
  Permutation cards flat /\
  ordered_by_tier (fun c => repetitions c =? 0) collator flat /\
  Permutation cards graduated /\
  ordered_by_tier (fun c => repetitions c <? Graduated.MASTERY_THRESHOLD)
    collator graduated /\
  forall sorted, sorted = flat \/ sorted = graduated ->
    forall (i j : nat) (a b : Card),
      sorted !! i = Some a -> sorted !! j = Some b ->
      repetitions a = 0 -> Graduated.MASTERY_THRESHOLD <= repetitions b ->
      (i < j)%nat.
Proof.
  intros fresh mature cards collator.
  apply (review_order_by_tier_then_due_date lengthCollator cards);
    unfold lengthCollator; intros; lia.
Defined.

(** ** The study session *)

Ltac state_setters :=
  unfold set_studyQueue, set_currentCardIndex, set_reviewedCount,
    set_lastAction, set_cards, record_call; cbn.

Section Session.
Variable engine : Card -> Z -> Z -> option Card.

Lemma handleReview_run st card quality now io :
  studyQueue st !! currentCardIndex st = Some card ->
  App.handleReview engine quality now io st =
    match engine card quality now, io with
    | None, _ =>
        Throws RangeError
          (interrupted st card [SM2_calculateNextReview card quality])
    | Some updated, Rejected =>
        Throws DexieError
          (interrupted st card [SM2_calculateNextReview card quality;
                                CardDB_updateCard (id card) updated])
    | Some updated, Fulfilled => Done (reviewed st card updated quality)
    end.
Proof.
  intros Hc. unfold App.handleReview. rewrite Hc. cbn.
  destruct (engine card quality now) as [updated|]; [|reflexivity].
  destruct io.
  - unfold reviewed. destruct (quality =? 0); state_setters;
      rewrite <- ?app_assoc; reflexivity.
  - unfold interrupted. state_setters. rewrite <- app_assoc. reflexivity.
Qed.

(** In study mode the two variants of [app.js] are the same program. *)
Lemma study_mode_handleReview st quality now io :
  isPracticeMode st = false ->
  AppStudyOnly.handleReview engine quality now io st =
  App.handleReview engine quality now io st.
Proof.
  intros Hm. unfold AppStudyOnly.handleReview, App.handleReview.
  destruct (studyQueue st !! currentCardIndex st); [|reflexivity].
  destruct st; cbn in Hm; subst; reflexivity.
Qed.

Lemma study_mode_undoLastAction st io :
  isPracticeMode st = false ->
  AppStudyOnly.undoLastAction io st = App.undoLastAction io st.
Proof.
  intros Hm. unfold AppStudyOnly.undoLastAction, App.undoLastAction.
  rewrite Hm. reflexivity.
Qed.

End Session.

Lemma moveToEnd_insert {A : Type} (l : list A) (i : nat) (x y : A) :
  l !! i = Some y ->
  moveToEnd i (<[i := x]> l) = take i l ++ drop (S i) l ++ [x].
Proof.
  intros H. apply lookup_lt_Some in H. unfold moveToEnd.
  rewrite list_lookup_insert_eq by exact H.
  rewrite delete_take_drop, take_insert_ge, drop_insert_lt by lia.
  now rewrite <- app_assoc.
Qed.

Lemma length_without {A : Type} (l : list A) (i : nat) (x y : A) :
  l !! i = Some y ->
  length (take i l ++ drop (S i) l ++ [x]) = length l.
Proof.
  intros H. apply lookup_lt_Some in H.
  rewrite !length_app, length_take, length_drop. simpl. lia.
Qed.

Lemma lookup_after_removal {A : Type} (l : list A) (i : nat) (x y next : A) :
  l !! i = Some y -> l !! S i = Some next ->
  (take i l ++ drop (S i) l ++ [x]) !! i = Some next.
Proof.
  intros Hi Hn. apply lookup_lt_Some in Hi.
  rewrite lookup_app_r by (rewrite length_take; lia).
  rewrite length_take, Nat.min_l, Nat.sub_diag by lia.
  apply lookup_app_l_Some. rewrite lookup_drop, Nat.add_0_r. exact Hn.
Qed.

Lemma filter_all {A : Type} (P : A -> Prop) `{forall x, Decision (P x)}
    (l : list A) :
  Forall P l -> filter P l = l.
Proof.
  induction 1 as [|x l Hx _ IH]; [reflexivity|].
  rewrite filter_cons_True by exact Hx. now rewrite IH.
Qed.

(** With one card per identifier in the queue, taking out the cards that
    have the identifier of the card at [i] and putting that card back at
    [i] gives the queue again. *)
Lemma reinsert_unique (queue : list Card) (i : nat) (card : Card) :
  NoDup (id <$> queue) -> queue !! i = Some card ->
  splice_insert i card (filter (fun c => id c <> id card) queue) = queue.
Proof.
  revert i. induction queue as [|c queue IH]; intros i Hnd Hi; [discriminate|].
  rewrite fmap_cons in Hnd. apply NoDup_cons in Hnd as [Hc Hnd].
  destruct i as [|i]; simpl in Hi.
  - injection Hi as ->.
    rewrite filter_cons_False by (intros Hne; now apply Hne).
    rewrite filter_all; [reflexivity|].
    apply Forall_forall. intros x Hx Heq. apply Hc.
    rewrite <- Heq. apply list_elem_of_fmap. eauto.
  - assert (id c <> id card) as Hne.
    { intros Heq. apply Hc. rewrite Heq. apply list_elem_of_fmap.
      exists card. split; [reflexivity|]. eapply list_elem_of_lookup_2; eauto. }
    rewrite filter_cons_True by exact Hne.
    unfold splice_insert in *. simpl. f_equal. now apply IH.
Qed.

Lemma reviewed_fail_requeued st card updated :
  studyQueue st !! currentCardIndex st = Some card ->
  requeued_at_tail st updated (Done (reviewed st card updated 0)).
Proof.
  intros Hc. exists (reviewed st card updated 0).
  unfold reviewed. cbn.
  rewrite (moveToEnd_insert _ _ _ _ Hc).
  split; [reflexivity|]. split; [reflexivity|].
  split; [eapply length_without; eauto|].
  split; [rewrite !app_assoc; apply last_snoc|].
  split; [reflexivity|]. split; [reflexivity|].
  intros next Hn. eapply lookup_after_removal; eauto.
Qed.

(** C6.  When the current card of a session is rated Fail (quality 0) and
    the update is stored, the queue keeps its length, the card as the
    engine updated it is the last element, the cursor and the count of
    reviewed cards are unchanged, and the card that came next is under the
    cursor.  This holds for the variant of [app.js] that updates the schedule
    in both modes and, in study mode, for the other one. *)
Theorem failed_card_moves_to_the_tail
    (engine : Card -> Z -> Z -> option Card) (st : State)
    (card updated : Card) (now : Z) :
  studyQueue st !! currentCardIndex st = Some card ->
  engine card 0 now = Some updated ->
  requeued_at_tail st updated (App.handleReview engine 0 now Fulfilled st) /\
  (isPracticeMode st = false ->
   requeued_at_tail st updated
     (AppStudyOnly.handleReview engine 0 now Fulfilled st)).
Proof.
  intros Hc He.
  assert (requeued_at_tail st updated (App.handleReview engine 0 now Fulfilled st)).
  { rewrite (handleReview_run engine st card 0 now Fulfilled Hc), He.
    now apply reviewed_fail_requeued. }
  split; [assumption|].
  intros Hm. now rewrite study_mode_handleReview.
Qed.

Lemma failed_card_moves_to_the_tail_witness :
  let card := createCard "c0" "kot" "cat" 1000 in
  requeued_at_tail threeCards (resetCard card 5000)
    (App.handleReview Flat.calculateNextReview 0 5000 Fulfilled threeCards) /\
  (isPracticeMode threeCards = false ->
   requeued_at_tail threeCards (resetCard card 5000)
     (AppStudyOnly.handleReview Flat.calculateNextReview 0 5000 Fulfilled
        threeCards)).
Proof.
  intros card.
  apply (failed_card_moves_to_the_tail Flat.calculateNextReview threeCards
           card (resetCard card 5000) 5000); reflexivity.
Defined.

Lemma Dexie_update_lookup key changes table :
  is_Some (table !! key) -> Dexie_update key changes table !! key = Some changes.
Proof.
  intros [old Hold]. unfold Dexie_update. rewrite Hold.
  apply lookup_insert_eq.
Qed.








Lemma undo_after_pass st card updated quality :
  quality <> 0 ->
  studyQueue st !! currentCardIndex st = Some card ->
  is_Some (cards st !! id card) ->
  undone App.undoLastAction st card
    (App.undoLastAction Fulfilled (reviewed st card updated quality)).
Proof.
  intros Hq Hc [stored Hs].
  apply Z.eqb_neq in Hq.
  unfold App.undoLastAction, reviewed. rewrite Hq. state_setters.
  rewrite Nat.sub_0_r.
  eexists. split; [reflexivity|]. cbn.
  assert (Ht : Dexie_update (id card) card
                 (Dexie_update (id card) updated (cards st))
               = <[id card := card]> (cards st)).
  { unfold Dexie_update. rewrite Hs, lookup_insert_eq.
    apply insert_insert_eq. }
  rewrite Ht.
  split; [apply lookup_insert_eq|].
  split; [intros H; now apply insert_id|].
  split; [reflexivity|].
  split; [intros Hnd; now apply reinsert_unique|].
  repeat split.
Qed.

(** C7.  After one Good review (quality 3) of the current card, stored in
    the table, [undo] writes the card back to the table with the very values
    it had before the review (all fields, the ease factor bit for bit),
    takes the cards with its identifier out of the queue and puts the
    snapshot back at its index (which is the queue of before the review when
    identifiers are not repeated), sets the cursor to that index, takes the
    count of reviewed cards back to what it was and empties the undo slot; a
    second [undo] changes nothing.  This holds for the variant of [app.js]
    that updates the schedule in both modes and, in study mode, for the
    other one. *)
Theorem undo_restores_the_reviewed_card
    (engine : Card -> Z -> Z -> option Card) (st : State)
    (card updated : Card) (now : Z) :
  studyQueue st !! currentCardIndex st = Some card ->
  is_Some (cards st !! id card) ->
  engine card 3 now = Some updated ->
  (exists st1,
     App.handleReview engine 3 now Fulfilled st = Done st1 /\
     undone App.undoLastAction st card (App.undoLastAction Fulfilled st1)) /\
  (isPracticeMode st = false ->
   exists st1,
     AppStudyOnly.handleReview engine 3 now Fulfilled st = Done st1 /\
     undone AppStudyOnly.undoLastAction st card
       (AppStudyOnly.undoLastAction Fulfilled st1)).
Proof.
  intros Hc Hs He.
  pose proof (undo_after_pass st card updated 3 ltac:(lia) Hc Hs) as Hu.
  assert (Hr : App.handleReview engine 3 now Fulfilled st
               = Done (reviewed st card updated 3))
    by (now rewrite (handleReview_run engine st card 3 now Fulfilled Hc), He).
  split.
  - exists (reviewed st card updated 3). split; [exact Hr | exact Hu].
  - intros Hm. exists (reviewed st card updated 3).
    split; [now rewrite study_mode_handleReview|].
    rewrite study_mode_undoLastAction by exact Hm.
    destruct Hu as (st2 & Hout & Hu). exists st2.
    split; [exact Hout|].
    destruct Hu as (H1 & H2 & H3 & H4 & H5 & H6 & H7 & H8).
    repeat (split; [assumption|]).
    intros io. unfold AppStudyOnly.undoLastAction. now rewrite H7.
Qed.

Lemma undo_restores_the_reviewed_card_witness :
  let card := createCard "c0" "kot" "cat" 1000 in
  exists updated,
    Flat.calculateNextReview card 3 5000 = Some updated /\
    (exists st1,
       App.handleReview Flat.calculateNextReview 3 5000 Fulfilled threeCards
         = Done st1 /\
       undone App.undoLastAction threeCards card
         (App.undoLastAction Fulfilled st1)) /\
    (isPracticeMode threeCards = false ->
     exists st1,
       AppStudyOnly.handleReview Flat.calculateNextReview 3 5000 Fulfilled
         threeCards = Done st1 /\
       undone AppStudyOnly.undoLastAction threeCards card
         (AppStudyOnly.undoLastAction Fulfilled st1)).
Proof.
  intros card.
  destruct (Flat.calculateNextReview card 3 5000) as [updated|] eqn:E;
    [|vm_compute in E; discriminate E].
  exists updated. split; [reflexivity|].
  apply (undo_restores_the_reviewed_card Flat.calculateNextReview threeCards
           card updated 5000).
  - reflexivity.
  - exists card. vm_compute. reflexivity.
  - exact E.
Defined.

(** ** The engine on objects *)

Section Objects.
Import Obj.

Lemma store_insert upd r c (h : gmap positive Card) :
  store upd r (<[r := c]> h) = (Some tt, <[r := upd c]> h).
Proof.
  unfold store. now rewrite lookup_insert_eq, insert_insert_eq.
Qed.

Lemma load_insert {A : Type} (f : Card -> A) r c (h : gmap positive Card) :
  load f r (<[r := c]> h) = (Some (f c), <[r := c]> h).
Proof.
  unfold load. now rewrite lookup_insert_eq.
Qed.

Lemma insert_fresh_preserved (h : gmap positive Card) c :
  preserved h (<[fresh (dom h) := c]> h).
Proof.
  intros r x Hr. rewrite lookup_insert_ne; [exact Hr|].
  intros <-. pose proof (is_fresh (dom h)) as Hf.
  apply Hf. apply elem_of_dom. eauto.
Qed.

End Objects.

Ltac js_step :=
  match goal with
  | |- context [Obj.store ?u ?r (<[?r := ?c]> ?h)] =>
      rewrite (store_insert u r c h)
  | |- context [Obj.load ?f ?r (<[?r := ?c]> ?h)] =>
      rewrite (load_insert f r c h)
  | |- context [if ?b then _ else _] =>
      match type of b with bool => destruct b eqn:? end
  | |- context [mbind _ ?o] =>
      lazymatch o with
      | context [mbind _ _] => fail
      | _ => destruct o eqn:?
      end
  | |- context [match ?o with Some _ => _ | None => _ end] => destruct o eqn:?
  end;
  cbn [mbind option_bind id front back interval easeFactor repetitions dueDate
       lastReviewed createdAt set_interval set_easeFactor set_repetitions
       set_dueDate set_lastReviewed fst snd].

Section ObjectsRun.
Import Obj.

#[local] Opaque JS.add JS.mul JS.Math_max JS.Math_round JS.ofZ easeDelta n1_3.

(** On a heap where [card] refers to the object [c], the statements of
    [calculateNextReview] compute the card of the functional reading in a
    new object, or throw where it has no result; the heap is otherwise the
    one they started from. *)
Lemma flat_calculateNextReview_run (h : gmap positive Card) card c quality now :
  h !! card = Some c ->
  exists c',
    FlatObj.calculateNextReview card quality now h =
      (match Flat.calculateNextReview c quality now with
       | Some _ => Some (fresh (dom h))
       | None => None
       end, <[fresh (dom h) := c']> h) /\
    forall c'', Flat.calculateNextReview c quality now = Some c'' -> c' = c''.
Proof.
  intros Hc.
  unfold FlatObj.calculateNextReview, Flat.calculateNextReview.
  unfold bind at 1. unfold spread. rewrite Hc.
  unfold bind, ret, lift.
  repeat js_step;
    (eexists; split; [reflexivity|]; intros ? [=]; subst; reflexivity).
Qed.

Lemma graduated_calculateNextReview_run (h : gmap positive Card) card c
    quality now :
  h !! card = Some c ->
  exists c',
    GraduatedObj.calculateNextReview card quality now h =
      (match Graduated.calculateNextReview c quality now with
       | Some _ => Some (fresh (dom h))
       | None => None
       end, <[fresh (dom h) := c']> h) /\
    forall c'', Graduated.calculateNextReview c quality now = Some c'' -> c' = c''.
Proof.
  intros Hc.
  unfold GraduatedObj.calculateNextReview, Graduated.calculateNextReview.
  unfold bind at 1. unfold spread. rewrite Hc.
  unfold bind, ret, lift.
  repeat js_step;
    (eexists; split; [reflexivity|]; intros ? [=]; subst; reflexivity).
Qed.

Lemma flat_getIntervalHint_run (h : gmap positive Card) card c quality now :
  h !! card = Some c ->
  exists c',
    FlatObj.getIntervalHint card quality now h =
      (Flat.getIntervalHint c quality now, <[fresh (dom h) := c']> h).
Proof.
  intros Hc.
  destruct (flat_calculateNextReview_run h card c quality now Hc)
    as (c' & Hrun & Hc').
  exists c'. unfold FlatObj.getIntervalHint, Flat.getIntervalHint.
  unfold bind at 1. rewrite Hrun.
  destruct (Flat.calculateNextReview c quality now) as [c''|]; [|reflexivity].
  rewrite (Hc' c'' eq_refl). cbn [mbind option_bind].
  destruct (quality <? 3); [reflexivity|].
  unfold bind, ret. now rewrite load_insert.
Qed.

Lemma graduated_getIntervalHint_run (h : gmap positive Card) card c
    quality now now' :
  h !! card = Some c ->
  exists c',
    GraduatedObj.getIntervalHint card quality now now' h =
      (Graduated.getIntervalHint c quality now now', <[fresh (dom h) := c']> h).
Proof.
  intros Hc.
  destruct (graduated_calculateNextReview_run h card c quality now Hc)
    as (c' & Hrun & Hc').
  exists c'. unfold GraduatedObj.getIntervalHint, Graduated.getIntervalHint.
  unfold bind at 1. rewrite Hrun.
  destruct (Graduated.calculateNextReview c quality now) as [c''|]; [|reflexivity].
  rewrite (Hc' c'' eq_refl). cbn [mbind option_bind].
  destruct (quality <? 3); [reflexivity|].
  unfold bind, ret. rewrite load_insert.
  destruct (interval c'' =? 0); now rewrite load_insert.
Qed.

End ObjectsRun.

(** C8.  For a card object, a quality and the readings of the clock,
    [getIntervalHint] gives the text that the functional reading computes
    from the fields of the card, the quality and the clock alone, so two
    calls with the same inputs give the same text; and a call changes no
    field of the card, nor of any other object: it only adds the object of
    the simulated review.  This holds for both variants of [sm2.js]. *)
Theorem interval_hint_is_side_effect_free
    (h : gmap positive Card) (card : Obj.ref) (c : Card)
    (quality now now' : Z) :
  h !! card = Some c ->
  side_effect_free h (FlatObj.getIntervalHint card quality now)
    (Flat.getIntervalHint c quality now) /\
  side_effect_free h (GraduatedObj.getIntervalHint card quality now now')
    (Graduated.getIntervalHint c quality now now').
Proof.
  intros Hc. split.
  - destruct (flat_getIntervalHint_run h card c quality now Hc) as (c1 & H1).
    assert (Hc1 : <[fresh (dom h) := c1]> h !! card = Some c)
      by (now apply insert_fresh_preserved).
    destruct (flat_getIntervalHint_run _ card c quality now Hc1) as (c2 & H2).
    eexists _, _. split; [exact H1|]. split; [apply insert_fresh_preserved|].
    split; [exact H2|]. apply insert_fresh_preserved.
  - destruct (graduated_getIntervalHint_run h card c quality now now' Hc)
      as (c1 & H1).
    assert (Hc1 : <[fresh (dom h) := c1]> h !! card = Some c)
      by (now apply insert_fresh_preserved).
    destruct (graduated_getIntervalHint_run _ card c quality now now' Hc1)
      as (c2 & H2).
    eexists _, _. split; [exact H1|]. split; [apply insert_fresh_preserved|].
    split; [exact H2|]. apply insert_fresh_preserved.
Qed.

Lemma interval_hint_is_side_effect_free_witness :
  let c := createCard "c0" "kot" "cat" 1000 in
  let h : gmap positive Card := {[ 1%positive := c ]} in
  side_effect_free h (FlatObj.getIntervalHint 1%positive 3 5000) (Some "1 day") /\
  side_effect_free h (GraduatedObj.getIntervalHint 1%positive 3 5000 5001)
    (Some "10 min").
Proof.
  intros c h.
  apply (interval_hint_is_side_effect_free h 1%positive c 3 5000 5001).
  reflexivity.
Defined.

(** ** The scenarios of the specification *)

Example scenario_fail_on_new_card :
  Flat.calculateNextReview (createCard "c0" "kot" "cat" 1000) 0 5000
  = Some (mkCard "c0" "kot" "cat" 0 n2_5 0 65000 (Some 5000) 1000).
Proof. reflexivity. Qed.

Example scenario_first_of_three_fails :
  match App.handleReview Flat.calculateNextReview 0 5000 Fulfilled threeCards with
  | Done st =>
      id <$> studyQueue st = ["c1"; "c2"; "c0"] /\
      currentCardIndex st = 0%nat /\ reviewedCount st = 0%nat
  | _ => False
  end.
Proof. vm_compute. repeat split. Qed.

Example scenario_good_then_undo_twice :
  match App.handleReview Flat.calculateNextReview 3 5000 Fulfilled threeCards with
  | Done st1 =>
      currentCardIndex st1 = 1%nat /\ reviewedCount st1 = 1%nat /\
      match App.undoLastAction Fulfilled st1 with
      | Done st2 =>
          studyQueue st2 = studyQueue threeCards /\
          currentCardIndex st2 = 0%nat /\ reviewedCount st2 = 0%nat /\
          cards st2 = cards threeCards /\
          App.undoLastAction Fulfilled st2 = Done st2
      | _ => False
      end
  | _ => False
  end.
Proof. vm_compute. repeat split. Qed.

Example scenario_quality_1_resets_and_advances :
  match App.handleReview Flat.calculateNextReview 1 5000 Fulfilled threeCards with
  | Done st =>
      cards st !! "c0" = Some (resetCard (createCard "c0" "kot" "cat" 1000) 5000) /\
      currentCardIndex st = 1%nat /\ reviewedCount st = 1%nat
  | _ => False
  end.
Proof. vm_compute. repeat split. Qed.

(** * Further properties of the sources *)

(** ** [sm2.js]: what a review keeps and what it sets *)

Section EngineFrame.

#[local] Opaque JS.add JS.mul JS.Math_max JS.Math_round JS.ofZ easeDelta n1_3.

Lemma flat_frame card quality now card' :
  Flat.calculateNextReview card quality now = Some card' ->
  id card' = id card /\ front card' = front card /\ back card' = back card /\
  createdAt card' = createdAt card /\ lastReviewed card' = Some now.
Proof.
  unfold Flat.calculateNextReview. intros H.
  repeat case_match; simplify_option_eq; repeat split.
Qed.

Lemma graduated_frame card quality now card' :
  Graduated.calculateNextReview card quality now = Some card' ->
  id card' = id card /\ front card' = front card /\ back card' = back card /\
  createdAt card' = createdAt card /\ lastReviewed card' = Some now.
Proof.
  unfold Graduated.calculateNextReview. intros H.
  repeat case_match; simplify_option_eq; repeat split.
Qed.

End EngineFrame.

(** X1.  A review never touches the identity of a card: the card that
    [calculateNextReview] returns has the [id], [front], [back] and
    [createdAt] of the card it was given, for every quality, in both
    variants; and its [lastReviewed] is the clock reading of the review. *)
Theorem review_keeps_the_card_identity
    (engine : Card -> Z -> Z -> option Card) (card card' : Card)
    (quality now : Z) :
  engine = Flat.calculateNextReview \/ engine = Graduated.calculateNextReview ->
  engine card quality now = Some card' ->
  id card' = id card /\ front card' = front card /\ back card' = back card /\
  createdAt card' = createdAt card /\ lastReviewed card' = Some now.
Proof.
  intros [-> | ->] H; [eapply flat_frame | eapply graduated_frame]; exact H.
Qed.

Lemma review_keeps_the_card_identity_witness :
  let card := mkCard "c9" "mleko" "milk" 6 n2_5 2 700 (Some 100) 50 in
  exists card',
    Graduated.calculateNextReview card 5 5000 = Some card' /\
    id card' = id card /\ front card' = front card /\ back card' = back card /\
    createdAt card' = createdAt card /\ lastReviewed card' = Some 5000.
Proof.
  intros card.
  destruct (Graduated.calculateNextReview card 5 5000) as [card'|] eqn:E;
    [|vm_compute in E; discriminate E].
  exists card'. split; [reflexivity|].
  apply (review_keeps_the_card_identity Graduated.calculateNextReview card card'
           5 5000); [right; reflexivity | exact E].
Defined.

(** ** [sm2.js], graduated variant: the steps before the mature phase *)

Lemma easy_bonus_on_last_step : JS.Math_round (JS.ofZ 14 * n1_3)%js = Some 18.
Proof. vm_compute. reflexivity. Qed.

Section GraduatedSteps.

#[local] Opaque JS.add JS.mul JS.Math_max JS.Math_round JS.ofZ easeDelta n1_3.

Lemma graduated_step card now rep :
  repetitions card = rep ->
  rep = 0 \/ rep = 1 \/ rep = 2 \/ rep = 3 \/ rep = 4 ->
  exists good easy,
    Graduated.calculateNextReview card 3 now = Some good /\
    Graduated.calculateNextReview card 5 now = Some easy /\
    interval good = graduatedGoodInterval rep /\
    repetitions good = rep + 1 /\
    dueDate good =
      (if rep =? 0 then now + 10 * msPerMinute else addDays now (interval good)) /\
    interval easy = graduatedEasyInterval rep /\
    repetitions easy = Z.min (rep + 2) Graduated.MASTERY_THRESHOLD /\
    dueDate easy = addDays now (interval easy).
Proof.
  intros Hr Hcases. unfold Graduated.calculateNextReview.
  cbn [repetitions interval set_easeFactor set_lastReviewed set_interval
       set_repetitions].
  rewrite Hr.
  destruct Hcases as [->|[->|[->|[->| ->]]]]; cbn;
    rewrite ?easy_bonus_on_last_step; cbn;
    (eexists _, _; split; [reflexivity|]; split; [reflexivity|]);
    cbn; repeat split; lia.
Qed.

End GraduatedSteps.

(** X2.  The graduated schedule before the mature phase.  For every card
    with [rep] repetitions, [0 <= rep < MASTERY_THRESHOLD], Good and Easy
    both return.  Good gives the step of the card: due in 10 minutes with
    [interval = 0] for [rep = 0], then 1, 3, 7 and 14 days, and one more
    repetition.  Easy skips a step: 1, 3, 7 and 14 days for [rep = 0..3] with
    two more repetitions, and on the last step (there is none to skip to)
    [round(14 * 1.3) = 18] days with one more repetition.  The ease factor
    and the old interval play no part. *)
Theorem graduated_steps_follow_the_table (card : Card) (now : Z) :
  0 <= repetitions card < Graduated.MASTERY_THRESHOLD ->
  let rep := repetitions card in
  exists good easy,
    Graduated.calculateNextReview card 3 now = Some good /\
    Graduated.calculateNextReview card 5 now = Some easy /\
    interval good = graduatedGoodInterval rep /\
    repetitions good = rep + 1 /\
    dueDate good =
      (if rep =? 0 then now + 10 * msPerMinute else addDays now (interval good)) /\
    interval easy = graduatedEasyInterval rep /\
    repetitions easy = Z.min (rep + 2) Graduated.MASTERY_THRESHOLD /\
    dueDate easy = addDays now (interval easy).
Proof.
  intros H rep. apply graduated_step; [reflexivity|].
  change Graduated.MASTERY_THRESHOLD with 5 in H. subst rep. lia.
Qed.

Lemma graduated_steps_follow_the_table_witness :
  let card := mkCard "c4" "ser" "cheese" 7 n2_5 3 700 (Some 100) 50 in
  exists good easy,
    Graduated.calculateNextReview card 3 5000 = Some good /\
    Graduated.calculateNextReview card 5 5000 = Some easy /\
    interval good = 7 /\ repetitions good = 4 /\
    dueDate good = addDays 5000 (interval good) /\
    interval easy = 14 /\ repetitions easy = 5 /\
    dueDate easy = addDays 5000 (interval easy).
Proof.
  intros card.
  apply (graduated_steps_follow_the_table card 5000).
  change (0 <= 3 < 5). lia.
Defined.

(** ** [sm2.js]: the ranges of the schedule *)

Section Signs.

Lemma binary_round_aux_nonneg mx ex lx :
  0 <= mx ->
  is_nonneg (binary_round_aux JS.prec JS.emax false mx ex lx) = true.
Proof.
  intros H. unfold binary_round_aux.
  pose proof (shr_fexp_nonneg mx ex lx H) as H1.
  destruct (shr_fexp JS.prec JS.emax mx ex lx) as [mrs' e']. simpl in H1.
  pose proof (shr_fexp_nonneg _ e' loc_Exact
                (round_nearest_even_nonneg _ (loc_of_shr_record mrs') H1)) as H2.
  destruct (shr_fexp JS.prec JS.emax _ e' loc_Exact) as [mrs'' e'']. simpl in H2.
  destruct (shr_m mrs''); [reflexivity| |lia].
  destruct (e'' <=? JS.emax - JS.prec); reflexivity.
Qed.

Lemma ofZ_nonneg z : 0 <= z -> is_nonneg (JS.ofZ z) = true.
Proof.
  intros H. unfold JS.ofZ, binary_normalize.
  destruct z as [|p|p]; [reflexivity| |lia].
  unfold binary_round. destruct (shl_align _ _ _).
  apply binary_round_aux_nonneg. lia.
Qed.

Lemma mul_nonneg x y :
  is_nonneg x = true -> is_nonneg y = true ->
  JS.mul x y = JS.NaN \/ is_nonneg (JS.mul x y) = true.
Proof.
  destruct x as [[|]|[|]| |[|] mx ex]; try discriminate;
    destruct y as [[|]|[|]| |[|] my ey]; try discriminate; intros _ _;
    simpl; auto.
  right. apply binary_round_aux_nonneg. lia.
Qed.

Lemma Math_round_nonneg x r :
  is_nonneg x = true -> JS.Math_round x = Some r -> 0 <= r.
Proof.
  destruct x as [[|]|[|]| |[|] m e]; try discriminate; intros _ [= <-];
    [lia|].
  simpl. destruct e as [|p|p].
  - lia.
  - pose proof (Z.pow_pos_nonneg 2 (Z.pos p)). lia.
  - apply Z.div_pos.
    + pose proof (Z.pow_pos_nonneg 2 (Z.pos p)). lia.
    + apply Z.pow_pos_nonneg; lia.
Qed.

Lemma at_least_1_3_nonneg y : JS.leb n1_3 y = true -> is_nonneg y = true.
Proof.
  destruct y as [[|]|[|]| |[|] m e]; vm_compute; congruence.
Qed.

(** The ease factor a passing review stores is 1.3 or more, or it is NaN. *)
Lemma clamped_ease_cases x :
  JS.Math_max n1_3 x = JS.NaN \/ JS.leb n1_3 (JS.Math_max n1_3 x) = true.
Proof.
  destruct x as [s|s| |s m e] eqn:E; try (left; reflexivity);
    right; apply Math_max_lower_bound; try apply n1_3_leb_refl; discriminate.
Qed.

Lemma round_of_product_nonneg i e r :
  0 <= i -> e = JS.NaN \/ JS.leb n1_3 e = true ->
  JS.Math_round (JS.ofZ i * e)%js = Some r -> 0 <= r.
Proof.
  intros Hi [-> | He] H.
  - destruct (JS.ofZ i); discriminate H.
  - destruct (mul_nonneg (JS.ofZ i) e (ofZ_nonneg i Hi) (at_least_1_3_nonneg e He))
      as [Hn | Hn].
    + rewrite Hn in H. discriminate H.
    + eapply Math_round_nonneg; eauto.
Qed.

Lemma item_in {A : Type} (a : list A) (i : Z) (x : A) :
  item a i = Some x -> x ∈ a.
Proof.
  unfold item. destruct (i <? 0); [discriminate|].
  apply list_elem_of_lookup_2.
Qed.

Lemma learning_step_is_10 rep m :
  item Graduated.LEARNING_STEPS_MIN rep = Some m -> m = 10.
Proof.
  intros H. apply item_in in H. now apply list_elem_of_singleton in H.
Qed.

Lemma graduated_day_nonneg rep d :
  item Graduated.GRADUATED_DAYS rep = Some d -> 0 <= d.
Proof.
  intros H. apply item_in in H. unfold Graduated.GRADUATED_DAYS in H.
  repeat (apply elem_of_cons in H as [->|H]; [lia|]).
  now apply elem_of_nil in H.
Qed.

End Signs.

Section Ranges.

#[local] Opaque JS.add JS.mul JS.Math_max JS.Math_round JS.ofZ easeDelta n1_3.

Ltac round_facts :=
  repeat match goal with
         | H : JS.Math_round (JS.ofZ ?i * JS.Math_max n1_3 ?x)%js = Some ?r |- _ =>
             lazymatch goal with
             | _ : 0 <= r |- _ => fail
             | _ => assert (0 <= r)
                      by (apply (round_of_product_nonneg i (JS.Math_max n1_3 x) r);
                          [lia | apply clamped_ease_cases | exact H])
             end
         | H : JS.Math_round (JS.ofZ ?i * n1_3)%js = Some ?r |- _ =>
             lazymatch goal with
             | _ : 0 <= r |- _ => fail
             | _ => assert (0 <= r)
                      by (apply (round_of_product_nonneg i n1_3 r);
                          [lia | right; apply n1_3_leb_refl | exact H])
             end
         | H : item Graduated.LEARNING_STEPS_MIN _ = Some ?m |- _ =>
             lazymatch goal with
             | _ : m = 10 |- _ => fail
             | _ => pose proof (learning_step_is_10 _ _ H)
             end
         | H : item Graduated.GRADUATED_DAYS _ = Some ?d |- _ =>
             lazymatch goal with
             | _ : 0 <= d |- _ => fail
             | _ => pose proof (graduated_day_nonneg _ _ H)
             end
         end.

Ltac returned :=
  repeat match goal with
         | H : _ ≫= _ = Some _ |- _ => apply bind_Some in H as (? & ? & H)
         | H : Some _ = Some _ |- _ => injection H as H; try subst
         | H : None = Some _ |- _ => discriminate H
         | H : context [if ?b then _ else _] |- _ =>
             match type of b with bool => destruct b eqn:? end
         end.

Lemma flat_ranges card quality now card' :
  0 <= interval card ->
  Flat.calculateNextReview card quality now = Some card' ->
  0 <= interval card' /\ now <= dueDate card' /\
  (0 <= repetitions card -> 0 <= repetitions card') /\
  (3 <= quality -> repetitions card < repetitions card') /\
  (quality < 3 -> repetitions card' = 0).
Proof.
  intros Hi H. unfold Flat.calculateNextReview in H.
  cbv zeta in H. returned;
    cbn [interval repetitions dueDate easeFactor set_interval set_easeFactor
         set_repetitions set_dueDate set_lastReviewed] in *;
    round_facts; unfold addDays, msPerDay, msPerMinute; repeat split; lia.
Qed.

Lemma graduated_ranges card quality now card' :
  0 <= interval card ->
  Graduated.calculateNextReview card quality now = Some card' ->
  0 <= interval card' /\ now <= dueDate card' /\
  (0 <= repetitions card -> 0 <= repetitions card') /\
  (3 <= quality -> repetitions card < repetitions card') /\
  (quality < 3 -> repetitions card' = 0).
Proof.
  intros Hi H. unfold Graduated.calculateNextReview in H.
  change Graduated.LEARNING_COUNT with 1 in *.
  change Graduated.GRADUATED_COUNT with 4 in *.
  cbv zeta in H. returned;
    cbn [interval repetitions dueDate easeFactor set_interval set_easeFactor
         set_repetitions set_dueDate set_lastReviewed] in *;
    round_facts; unfold addDays, msPerDay, msPerMinute; repeat split; lia.
Qed.

End Ranges.

(** X3.  The schedule stays in range.  For a card whose interval is not
    negative, whatever its ease factor, the card a review returns has an
    interval that is not negative and is due no earlier than the clock
    reading of the review; repetitions that were not negative stay so; a
    passing review (quality 3 or more) leaves strictly more repetitions than
    there were, and a failed one leaves 0.  Both variants. *)
Theorem review_keeps_the_schedule_in_range
    (engine : Card -> Z -> Z -> option Card) (card card' : Card)
    (quality now : Z) :
  engine = Flat.calculateNextReview \/ engine = Graduated.calculateNextReview ->
  0 <= interval card ->
  engine card quality now = Some card' ->
  0 <= interval card' /\ now <= dueDate card' /\
  (0 <= repetitions card -> 0 <= repetitions card') /\
  (3 <= quality -> repetitions card < repetitions card') /\
  (quality < 3 -> repetitions card' = 0).
Proof.
  intros [-> | ->] Hi H; [eapply flat_ranges | eapply graduated_ranges]; eauto.
Qed.

Lemma review_keeps_the_schedule_in_range_witness :
  let card := mkCard "c9" "mleko" "milk" 16 (JS.lit 208 100) 7 700 (Some 100) 50 in
  exists card',
    Flat.calculateNextReview card 5 5000 = Some card' /\
    0 <= interval card' /\ 5000 <= dueDate card' /\
    (0 <= repetitions card -> 0 <= repetitions card') /\
    (3 <= 5 -> repetitions card < repetitions card') /\
    (5 < 3 -> repetitions card' = 0).
Proof.
  intros card.
  destruct (Flat.calculateNextReview card 5 5000) as [card'|] eqn:E;
    [|vm_compute in E; discriminate E].
  exists card'. split; [reflexivity|].
  apply (review_keeps_the_schedule_in_range Flat.calculateNextReview card card'
           5 5000); [left; reflexivity | simpl; lia | exact E].
Defined.

(** ** [sm2.js]: the card returned is a new object *)

Lemma fresh_is_new (h : gmap positive Card) : h !! fresh (dom h) = None.
Proof. apply not_elem_of_dom. apply is_fresh. Qed.

(** X4.  [calculateNextReview] clones: run on a heap where [card] refers to
    an object with the fields [c], it leaves every object of the heap as it
    was (the card it was given included) and, when it returns, returns a
    reference that the heap did not hold, to an object with the fields that
    the functional reading computes from [c]; when the functional reading
    has no result, it throws.  Both variants. *)
Theorem calculateNextReview_returns_a_new_object
    (h : gmap positive Card) (card : Obj.ref) (c : Card) (quality now : Z) :
  h !! card = Some c ->
  returns_new_object h (FlatObj.calculateNextReview card quality now)
    (Flat.calculateNextReview c quality now) /\
  returns_new_object h (GraduatedObj.calculateNextReview card quality now)
    (Graduated.calculateNextReview c quality now).
Proof.
  intros Hc. split.
  - destruct (flat_calculateNextReview_run h card c quality now Hc)
      as (c' & Hrun & Hc').
    eexists _, _. split; [exact Hrun|]. split; [apply insert_fresh_preserved|].
    destruct (Flat.calculateNextReview c quality now) as [c''|]; [|reflexivity].
    exists (fresh (dom h)). split; [reflexivity|]. split; [apply fresh_is_new|].
    rewrite (Hc' c'' eq_refl). apply lookup_insert_eq.
  - destruct (graduated_calculateNextReview_run h card c quality now Hc)
      as (c' & Hrun & Hc').
    eexists _, _. split; [exact Hrun|]. split; [apply insert_fresh_preserved|].
    destruct (Graduated.calculateNextReview c quality now) as [c''|]; [|reflexivity].
    exists (fresh (dom h)). split; [reflexivity|]. split; [apply fresh_is_new|].
    rewrite (Hc' c'' eq_refl). apply lookup_insert_eq.
Qed.

Lemma calculateNextReview_returns_a_new_object_witness :
  let c := createCard "c0" "kot" "cat" 1000 in
  let h : gmap positive Card := {[ 1%positive := c ]} in
  returns_new_object h (FlatObj.calculateNextReview 1%positive 3 5000)
    (Flat.calculateNextReview c 3 5000) /\
  returns_new_object h (GraduatedObj.calculateNextReview 1%positive 3 5000)
    (Graduated.calculateNextReview c 3 5000).
Proof.
  intros c h.
  apply (calculateNextReview_returns_a_new_object h 1%positive c 3 5000).
  reflexivity.
Defined.

(** ** [sm2.js]: sorting what is sorted *)

Section SortedInput.
Context {A : Type} (compare : A -> A -> Z).

Lemma Array_sort_of_sorted l :
  StronglySorted (fun x y => compare x y <= 0) l -> Array_sort compare l = l.
Proof.
  induction 1 as [|x l Hs IH Hx]; [reflexivity|].
  simpl. rewrite IH. destruct l as [|y l']; [reflexivity|].
  simpl. apply Forall_cons in Hx as [Hxy _].
  destruct (Z.gtb_spec (compare x y) 0); [lia|reflexivity].
Qed.

End SortedInput.

(** X5.  [sortCardsForReview] is idempotent: sorting the queue it returned
    returns that queue; more generally a list that is already in the order
    of the comparator comes back as it is.  Both variants, for a collator
    that is a consistent comparator. *)
Theorem sortCardsForReview_is_idempotent
    (Intl_Collator : string -> Sensitivity -> string -> string -> Z)
    (cards : list Card) :
  let collator := Intl_Collator "pl" SensBase in
  (forall x y, 0 < collator x y -> collator y x <= 0) ->
  (forall x y z, collator x y <= 0 -> collator y z <= 0 -> collator x z <= 0) ->
  Flat.sortCardsForReview Intl_Collator
    (Flat.sortCardsForReview Intl_Collator cards)
  = Flat.sortCardsForReview Intl_Collator cards /\
  Graduated.sortCardsForReview Intl_Collator
    (Graduated.sortCardsForReview Intl_Collator cards)
  = Graduated.sortCardsForReview Intl_Collator cards /\
  (StronglySorted (fun a b => Flat.compareCards Intl_Collator a b <= 0) cards ->
   Flat.sortCardsForReview Intl_Collator cards = cards) /\
  (StronglySorted (fun a b => Graduated.compareCards Intl_Collator a b <= 0) cards ->
   Graduated.sortCardsForReview Intl_Collator cards = cards).
Proof.
  intros collator Htot Htrans.
  pose proof (tierCompare_consistent (fun c => repetitions c =? 0)
                collator Htot Htrans) as Hf.
  pose proof (tierCompare_consistent
                (fun c => repetitions c <? Graduated.MASTERY_THRESHOLD)
                collator Htot Htrans) as Hg.
  split; [|split; [|split]].
  - apply Array_sort_of_sorted. apply (Array_sort_sorted _ Hf).
  - apply Array_sort_of_sorted. apply (Array_sort_sorted _ Hg).
  - apply Array_sort_of_sorted.
  - apply Array_sort_of_sorted.
Qed.

Lemma sortCardsForReview_is_idempotent_witness :
  let fresh := mkCard "c1" "kot" "cat" 0 n2_5 0 900 None 0 in
  let mature := mkCard "c2" "pies" "dog" 16 n2_5 5 100 (Some 50) 0 in
  Flat.sortCardsForReview lengthCollator
    (Flat.sortCardsForReview lengthCollator [mature; fresh])
  = [fresh; mature].
Proof.
  intros fresh mature.
  pose proof (sortCardsForReview_is_idempotent lengthCollator [mature; fresh]) as H.
  destruct H as (H & _); [unfold lengthCollator; intros; lia ..|].
  rewrite H. reflexivity.
Defined.

(** ** [app.js]: the invariant of a session *)

Section SessionInvariant.

Lemma session_ok_same st st' :
  studyQueue st' = studyQueue st ->
  currentCardIndex st' = currentCardIndex st ->
  cards st' = cards st ->
  session_ok st -> session_ok st'.
Proof.
  unfold session_ok. intros -> -> ->. auto.
Qed.

Lemma sm2_keeps_id engine card quality now card' :
  is_sm2 engine -> engine card quality now = Some card' -> id card' = id card.
Proof.
  intros [-> | ->] H;
    [eapply flat_frame in H | eapply graduated_frame in H]; apply H.
Qed.

(** The other cards of a queue without repeated identifiers. *)
Lemma other_ids (queue : list Card) (i j : nat) (card c : Card) :
  NoDup (id <$> queue) -> queue !! i = Some card -> queue !! j = Some c ->
  i <> j -> id c <> id card.
Proof.
  intros Hnd Hi Hj Hij Heq. apply Hij.
  eapply (NoDup_lookup (id <$> queue)); [exact Hnd| |].
  - rewrite list_lookup_fmap, Hi. reflexivity.
  - rewrite list_lookup_fmap, Hj. simpl. now rewrite Heq.
Qed.

Lemma filter_after_requeue (P : Card -> Prop) `{forall x, Decision (P x)}
    (queue : list Card) (i : nat) (card updated : Card) :
  queue !! i = Some card -> ~ P card -> ~ P updated ->
  filter P (take i queue ++ drop (S i) queue ++ [updated]) = filter P queue.
Proof.
  intros Hi Hc Hu.
  rewrite <- (take_drop_middle queue i card Hi) at 3.
  rewrite !filter_app, (filter_cons_False P card) by exact Hc.
  rewrite (filter_cons_False P updated) by exact Hu. simpl.
  now rewrite app_nil_r.
Qed.

(** What [undoLastAction] computes when the slot holds a card. *)
Lemma undoLastAction_run st card i :
  lastAction st = Some (mkAction card i true) ->
  App.undoLastAction Fulfilled st =
    Done (mkState
            (splice_insert i card
               (filter (fun c => id c <> id card) (studyQueue st)))
            i
            (if (0 <? reviewedCount st)%nat
             then (reviewedCount st - 1)%nat else reviewedCount st)
            None (isPracticeMode st)
            (Dexie_update (id card) card (cards st))
            (calls st ++ [CardDB_updateCard (id card) card])).
Proof.
  intros H. unfold App.undoLastAction. rewrite H. state_setters.
  destruct (reviewedCount st); reflexivity.
Qed.

Lemma Dexie_update_same key c table :
  table !! key = Some c -> Dexie_update key c table = table.
Proof.
  intros H. unfold Dexie_update. rewrite H. now apply insert_id.
Qed.

Lemma Dexie_update_twice key c updated table :
  table !! key = Some c ->
  Dexie_update key c (Dexie_update key updated table) = table.
Proof.
  intros H. unfold Dexie_update. rewrite H, lookup_insert_eq, insert_insert_eq.
  now apply insert_id.
Qed.

Lemma Dexie_update_keyed key c table :
  id c = key -> table_keyed table -> table_keyed (Dexie_update key c table).
Proof.
  intros Hid Hk k x. unfold Dexie_update.
  destruct (table !! key) eqn:E; [|apply Hk].
  rewrite lookup_insert. case_decide; [|apply Hk].
  intros [= <-]. congruence.
Qed.

Lemma Dexie_update_other key c table k :
  k <> key -> Dexie_update key c table !! k = table !! k.
Proof.
  intros Hne. unfold Dexie_update. destruct (table !! key); [|reflexivity].
  now rewrite lookup_insert_ne.
Qed.

(** A completed review leaves a sound session. *)
Lemma reviewed_ok st card updated quality :
  session_ok st ->
  studyQueue st !! currentCardIndex st = Some card ->
  id updated = id card ->
  session_ok (reviewed st card updated quality).
Proof.
  intros (Hnd & Hk & Hin & Hcur) Hc Hid.
  pose proof (Hcur _ _ (Nat.le_refl _) Hc) as Hstored.
  assert (Hup : Dexie_update (id card) updated (cards st) !! id card = Some updated)
    by (apply Dexie_update_lookup; eauto).
  unfold session_ok, reviewed. cbn.
  destruct (quality =? 0).
  - rewrite (moveToEnd_insert _ _ _ _ Hc).
    assert (Hperm : take (currentCardIndex st) (studyQueue st)
                    ++ drop (S (currentCardIndex st)) (studyQueue st) ++ [updated]
                    ≡ₚ updated :: take (currentCardIndex st) (studyQueue st)
                       ++ drop (S (currentCardIndex st)) (studyQueue st)).
    { rewrite app_assoc. rewrite <- Permutation_cons_append. reflexivity. }
    assert (Hids : id <$> (updated :: take (currentCardIndex st) (studyQueue st)
                             ++ drop (S (currentCardIndex st)) (studyQueue st))
                   ≡ₚ id <$> studyQueue st).
    { rewrite <- (take_drop_middle _ _ _ Hc) at 3.
      rewrite !fmap_cons, !fmap_app, fmap_cons, Hid.
      now rewrite <- Permutation_middle. }
    split; [|split; [|split]].
    + rewrite Hperm, Hids. exact Hnd.
    + apply Dexie_update_keyed; [exact Hid | exact Hk].
    + intros c Hc'. rewrite Hperm in Hc'.
      apply elem_of_cons in Hc' as [-> | Hc'].
      * rewrite Hid, Hup. eauto.
      * assert (c ∈ studyQueue st) as Hq.
        { rewrite <- (take_drop_middle _ _ _ Hc).
          apply elem_of_app in Hc' as [?|?]; apply elem_of_app; auto.
          right. now apply elem_of_cons; right. }
        destruct (decide (id c = id card)) as [-> | Hne]; [rewrite Hup; eauto|].
        rewrite Dexie_update_other by exact Hne. now apply Hin.
    + intros j c Hj Hl.
      pose proof (lookup_lt_Some _ _ _ Hc) as Hlen.
      rewrite app_assoc in Hl.
      apply lookup_app_Some in Hl as [Hl | [Hge Hl]].
      * assert (studyQueue st !! S j = Some c) as Hq.
        { rewrite lookup_app_r in Hl by (rewrite length_take; lia).
          rewrite length_take, Nat.min_l, lookup_drop in Hl by lia.
          rewrite <- Hl. f_equal. lia. }
        rewrite Dexie_update_other
          by (eapply (other_ids (studyQueue st) (currentCardIndex st) (S j));
              eauto; lia).
        apply (Hcur (S j)); [lia | exact Hq].
      * apply list_lookup_singleton_Some in Hl as [_ <-].
        now rewrite Hid.
  - split; [exact Hnd|]. split; [|split].
    + apply Dexie_update_keyed; [exact Hid | exact Hk].
    + intros c Hc'.
      destruct (decide (id c = id card)) as [-> | Hne]; [rewrite Hup; eauto|].
      rewrite Dexie_update_other by exact Hne. now apply Hin.
    + intros j c Hj Hl.
      rewrite Dexie_update_other
        by (eapply (other_ids (studyQueue st) (currentCardIndex st) j);
            eauto; lia).
      apply (Hcur j); [lia | exact Hl].
Qed.

End SessionInvariant.

Section UndoRestores.

Lemma undo_of_reviewed st card updated quality :
  session_ok st ->
  studyQueue st !! currentCardIndex st = Some card ->
  id updated = id card ->
  gives_back st
    (if quality =? 0 then Nat.pred (reviewedCount st) else reviewedCount st)
    (App.undoLastAction Fulfilled (reviewed st card updated quality)).
Proof.
  intros (Hnd & Hk & Hin & Hcur) Hc Hid.
  pose proof (Hcur _ _ (Nat.le_refl _) Hc) as Hstored.
  rewrite (undoLastAction_run (reviewed st card updated quality) card
             (currentCardIndex st) eq_refl).
  eexists. split; [reflexivity|]. unfold reviewed. cbn.
  rewrite (Dexie_update_twice _ _ _ _ Hstored).
  destruct (quality =? 0).
  - rewrite (moveToEnd_insert _ _ _ _ Hc).
    rewrite (filter_after_requeue _ _ _ _ _ Hc)
      by (intros Hne; apply Hne; congruence).
    rewrite (reinsert_unique _ _ _ Hnd Hc).
    repeat split. destruct (reviewedCount st); simpl; lia.
  - rewrite (reinsert_unique _ _ _ Hnd Hc).
    repeat split. simpl. lia.
Qed.

Lemma undo_of_interrupted st card made :
  session_ok st ->
  studyQueue st !! currentCardIndex st = Some card ->
  gives_back st (Nat.pred (reviewedCount st))
    (App.undoLastAction Fulfilled (interrupted st card made)).
Proof.
  intros (Hnd & Hk & Hin & Hcur) Hc.
  pose proof (Hcur _ _ (Nat.le_refl _) Hc) as Hstored.
  rewrite (undoLastAction_run (interrupted st card made) card
             (currentCardIndex st) eq_refl).
  eexists. split; [reflexivity|]. unfold interrupted. cbn.
  rewrite (Dexie_update_same _ _ _ Hstored), (reinsert_unique _ _ _ Hnd Hc).
  repeat split. destruct (reviewedCount st); simpl; lia.
Qed.

Lemma gives_back_ok st count out st' :
  session_ok st -> gives_back st count out -> out = Done st' -> session_ok st'.
Proof.
  intros Hok (st2 & -> & Hq & Hi & Hc & _) [= <-].
  eapply session_ok_same; eauto.
Qed.

Lemma interrupted_ok st card made :
  session_ok st -> session_ok (interrupted st card made).
Proof. apply session_ok_same; reflexivity. Qed.

Lemma handleReview_keeps_invariant engine st quality now io :
  is_sm2 engine -> session_ok st ->
  afterwards (App.handleReview engine quality now io st) session_invariant.
Proof.
  intros He Hok.
  destruct (studyQueue st !! currentCardIndex st) as [card|] eqn:Hc.
  - rewrite (handleReview_run engine st card quality now io Hc).
    destruct (engine card quality now) as [updated|] eqn:E.
    + pose proof (sm2_keeps_id _ _ _ _ _ He E) as Hid.
      destruct io; simpl.
      * split; [now apply reviewed_ok|].
        intros st'. eapply gives_back_ok; [exact Hok|].
        now apply undo_of_reviewed.
      * split; [now apply interrupted_ok|].
        intros st'. eapply gives_back_ok; [exact Hok|].
        now apply undo_of_interrupted.
    + simpl. split; [now apply interrupted_ok|].
      intros st'. eapply gives_back_ok; [exact Hok|].
      now apply undo_of_interrupted.
  - unfold App.handleReview. rewrite Hc. exact I.
Qed.

Lemma undoLastAction_keeps_invariant st io :
  session_invariant st ->
  afterwards (App.undoLastAction io st) session_invariant.
Proof.
  intros [Hok Hundo]. destruct io.
  - destruct (App.undoLastAction Fulfilled st) as [st'| |] eqn:E; simpl; [| |exact I].
    + assert (lastAction st' = None) as Hnone.
      { unfold App.undoLastAction in E.
        destruct (lastAction st) eqn:El; [|injection E as <-; exact El].
        injection E as <-. reflexivity. }
      split; [now apply Hundo|].
      intros st''. unfold App.undoLastAction. rewrite Hnone.
      intros [= <-]. now apply Hundo.
    + unfold App.undoLastAction in E. destruct (lastAction st); discriminate E.
  - unfold App.undoLastAction in *.
    destruct (lastAction st) as [last|] eqn:El; simpl.
    + split; [now apply (session_ok_same st)|].
      unfold App.undoLastAction. state_setters. rewrite El.
      intros st' [= <-]. specialize (Hundo _ eq_refl).
      revert Hundo. apply session_ok_same; state_setters;
        destruct (wasInQueue last); try reflexivity;
        destruct (reviewedCount st); reflexivity.
    + split; [exact Hok|]. unfold App.undoLastAction. rewrite El.
      intros st' [= <-]. exact Hok.
Qed.

End UndoRestores.

(** ** [db.js] and [app.js]: starting a study session *)

Section Queries.

Lemma ids_of_keyed (l : list (string * Card)) :
  Forall (fun p => id p.2 = p.1) l -> id <$> l.*2 = l.*1.
Proof.
  induction 1 as [|[k c] l Hp _ IH]; [reflexivity|].
  rewrite !fmap_cons, IH. simpl in *. now rewrite Hp.
Qed.

Lemma listed_keyed (table : gmap string Card) (l : list (string * Card)) :
  table_keyed table -> l ⊆ map_to_list table ->
  Forall (fun p => id p.2 = p.1) l.
Proof.
  intros Hk Hl. apply Forall_forall. intros [k c] Hin.
  apply Hl, elem_of_map_to_list in Hin. simpl. now apply Hk.
Qed.

Lemma getDueCards_perm toISOString now (table : gmap string Card) :
  getDueCards toISOString now table
  ≡ₚ (filter
        (fun p => compareKeys (toISOString (dueDate p.2)) (toISOString now) <= 0)
        (map_to_list table)).*2.
Proof.
  unfold getDueCards. cbv zeta. now rewrite <- Array_sort_perm.
Qed.

Lemma elem_of_getDueCards toISOString now (table : gmap string Card) c :
  table_keyed table ->
  c ∈ getDueCards toISOString now table <-> is_due toISOString table now c.
Proof.
  intros Hk. rewrite getDueCards_perm, list_elem_of_fmap. unfold is_due. split.
  - intros ([k c'] & -> & Hin). apply list_elem_of_filter in Hin as [Hdue Hin].
    apply elem_of_map_to_list in Hin. simpl in *.
    now rewrite (Hk _ _ Hin).
  - intros [Hl Hdue]. exists (id c, c). split; [reflexivity|].
    apply list_elem_of_filter. split; [exact Hdue|].
    now apply elem_of_map_to_list.
Qed.

Lemma getDueCards_ids toISOString now (table : gmap string Card) :
  table_keyed table -> NoDup (id <$> getDueCards toISOString now table).
Proof.
  intros Hk. rewrite getDueCards_perm.
  rewrite ids_of_keyed.
  - eapply sublist_NoDup; [apply (NoDup_fst_map_to_list table)|].
    apply fmap_sublist, sublist_filter.
  - apply (listed_keyed table); [exact Hk|].
    intros p Hp. now apply list_elem_of_filter in Hp as [_ Hp].
Qed.

Lemma review_sort_perm sort l : is_review_sort sort -> l ≡ₚ sort l.
Proof.
  intros (I & [-> | ->]); apply Array_sort_perm.
Qed.

End Queries.

Lemma started_session_ok sort toISOString now st st' :
  is_review_sort sort -> table_keyed (cards st) ->
  studyQueue st' = sort (getDueCards toISOString now (cards st)) ->
  cards st' = cards st ->
  session_ok st' /\
  forall c, c ∈ studyQueue st' <-> is_due toISOString (cards st) now c.
Proof.
  intros Hsort Hk Hq Hc.
  assert (Hmem : forall c,
            c ∈ studyQueue st' <-> is_due toISOString (cards st) now c).
  { intros c. rewrite Hq, <- (review_sort_perm sort _ Hsort).
    now apply elem_of_getDueCards. }
  split; [|exact Hmem]. unfold session_ok. rewrite Hc.
  split; [|split; [exact Hk|split]].
  - rewrite Hq, <- (review_sort_perm sort _ Hsort). now apply getDueCards_ids.
  - intros c Hin. apply Hmem in Hin as [Hin _]. eauto.
  - intros i c _ Hl. apply list_elem_of_lookup_2 in Hl.
    now apply Hmem in Hl as [Hl _].
Qed.

(** X6.  [startStudy] queues exactly the cards that the index of the due
    dates gives as due.  On a table whose records are stored under their
    [id], when there is a record whose due date, as the text that
    [toISOString] writes, is in the order of strings not above the text of
    [now], the queue becomes the sorted list of these records, each once and
    as the table has it, with the cursor and the count of reviewed cards at
    0 and an empty undo slot, and the session invariant holds; if the texts
    compare as the instants do, these are the records with
    [dueDate <= now].  When there is no such record the session does not
    start: queue, cursor, count and undo slot stay as they were.  In both
    cases the table is untouched and the practice mode is off. *)
Theorem startStudy_queues_the_due_cards
    (sort : list Card -> list Card) (toISOString : Z -> string) (now : Z)
    (st : State) :
  is_review_sort sort ->
  table_keyed (cards st) ->
  study_started sort toISOString now st
    (startStudy sort toISOString now Fulfilled st).
Proof.
  intros Hsort Hk. unfold study_started, startStudy. cbn.
  destruct (getDueCards toISOString now (cards st)) as [|d ds] eqn:E.
  - eexists. split; [reflexivity|]. cbn.
    split; [reflexivity|]. split; [reflexivity|]. split.
    + intros [c Hc]. apply (elem_of_getDueCards toISOString now _ c Hk) in Hc.
      rewrite E in Hc. now apply elem_of_nil in Hc.
    + intros _. repeat split.
  - eexists. split; [reflexivity|]. cbn.
    split; [reflexivity|]. split; [reflexivity|]. split.
    + intros _.
      match goal with
      | |- context [session_invariant ?s] =>
          destruct (started_session_ok sort toISOString now st s Hsort Hk)
            as [Hok Hmem]; [cbn; now rewrite E | reflexivity |]
      end.
      cbn in Hmem.
      split; [exact Hmem|]. split.
      { intros Hord c. rewrite (Hmem c). unfold is_due. split.
        - intros [Hc Hd]. split; [exact Hc|]. now apply (Hord c Hc).
        - intros [Hc Hd]. split; [exact Hc|]. now apply (Hord c Hc). }
      split; [reflexivity|].
      split; [reflexivity|]. split; [reflexivity|]. split; [reflexivity|].
      split; [exact Hok|].
      intros st''. unfold App.undoLastAction. cbn. intros [= <-]. exact Hok.
    + intros Hnone. exfalso. apply (Hnone d).
      apply (elem_of_getDueCards toISOString now _ d Hk). rewrite E. left.
Qed.

Lemma threeCards_keyed : table_keyed (cards threeCards).
Proof.
  apply (bool_decide_unpack (map_Forall (fun k c => id c = k) (cards threeCards))).
  vm_compute. exact I.
Qed.

Lemma startStudy_queues_the_due_cards_witness :
  study_started (Flat.sortCardsForReview lengthCollator) Date_toISOString
    5000 threeCards
    (startStudy (Flat.sortCardsForReview lengthCollator) Date_toISOString
       5000 Fulfilled threeCards).
Proof.
  apply (startStudy_queues_the_due_cards
           (Flat.sortCardsForReview lengthCollator) Date_toISOString 5000
           threeCards).
  - exists lengthCollator. left. reflexivity.
  - exact threeCards_keyed.
Defined.

(** The index compares texts: a card due in the year 39924, whose due date
    is written with a sign, is given as due in 2023, and a card due the
    next day is not. *)
Example far_future_card_is_due :
  let now := 1700000000000 in
  let far := set_dueDate 1197725616000000 (createCard "far" "kot" "cat" now) in
  let near := set_dueDate (now + msPerDay) (createCard "near" "pies" "dog" now) in
  Date_toISOString (dueDate far) = "+039924-06-01T00:00:00.000Z" /\
  Date_toISOString now = "2023-11-14T22:13:20.000Z" /\
  getDueCards Date_toISOString now (list_to_map [("far", far); ("near", near)])
  = [far].
Proof.
  vm_compute. repeat split.
Qed.

(** X7.  The session invariant is kept.  With an engine of [sm2.js], from a
    state in which the queue has no two cards with the same [id], every
    queued card is in the table, the cards from the cursor on are the stored
    ones, and [undo] would give back such a state, every review and every
    [undo] ends in such a state again: whether the write is fulfilled or
    rejected and whether the engine returns or throws.  In study mode the
    same holds of the variant that leaves the schedule alone in practice. *)
Theorem session_invariant_is_kept
    (engine : Card -> Z -> Z -> option Card) (st : State)
    (quality now : Z) (io : Settled) :
  is_sm2 engine ->
  session_invariant st ->
  afterwards (App.handleReview engine quality now io st) session_invariant /\
  afterwards (App.undoLastAction io st) session_invariant /\
  (isPracticeMode st = false ->
   afterwards (AppStudyOnly.handleReview engine quality now io st)
     session_invariant /\
   afterwards (AppStudyOnly.undoLastAction io st) session_invariant).
Proof.
  intros He Hinv.
  assert (H1 : afterwards (App.handleReview engine quality now io st)
                 session_invariant)
    by (apply handleReview_keeps_invariant; [exact He | exact (proj1 Hinv)]).
  assert (H2 : afterwards (App.undoLastAction io st) session_invariant)
    by (now apply undoLastAction_keeps_invariant).
  split; [exact H1|]. split; [exact H2|].
  intros Hm. rewrite study_mode_handleReview, study_mode_undoLastAction by exact Hm.
  split; assumption.
Qed.

Lemma threeCards_invariant : session_invariant threeCards.
Proof.
  assert (session_ok threeCards) as Hok.
  { unfold session_ok. split; [|split; [exact threeCards_keyed|split]].
    - apply (bool_decide_unpack (NoDup (id <$> studyQueue threeCards))).
      vm_compute. exact I.
    - intros c Hc. unfold threeCards in Hc. cbn in Hc.
      repeat (apply elem_of_cons in Hc as [-> | Hc]; [eexists; vm_compute; reflexivity|]).
      now apply elem_of_nil in Hc.
    - intros i c _ Hl. apply list_elem_of_lookup_2 in Hl.
      unfold threeCards in Hl. cbn in Hl.
      repeat (apply elem_of_cons in Hl as [-> | Hl]; [vm_compute; reflexivity|]).
      now apply elem_of_nil in Hl. }
  split; [exact Hok|]. intros st' [= <-]. exact Hok.
Qed.

Lemma session_invariant_is_kept_witness :
  afterwards (App.handleReview Flat.calculateNextReview 0 5000 Rejected threeCards)
    session_invariant /\
  afterwards (App.undoLastAction Rejected threeCards) session_invariant /\
  (isPracticeMode threeCards = false ->
   afterwards
     (AppStudyOnly.handleReview Flat.calculateNextReview 0 5000 Rejected threeCards)
     session_invariant /\
   afterwards (AppStudyOnly.undoLastAction Rejected threeCards) session_invariant).
Proof.
  apply (session_invariant_is_kept Flat.calculateNextReview threeCards 0 5000
           Rejected).
  - left. reflexivity.
  - exact threeCards_invariant.
Defined.



(** ** [app.js]: a run of reviews *)

Lemma reviewed_progress st card updated quality :
  studyQueue st !! currentCardIndex st = Some card ->
  let st' := reviewed st card updated quality in
  length (studyQueue st') = length (studyQueue st) /\
  currentCardIndex st' =
    (currentCardIndex st + (if (quality =? 0)%Z then 0 else 1))%nat /\
  reviewedCount st' =
    (reviewedCount st + (if (quality =? 0)%Z then 0 else 1))%nat /\
  (currentCardIndex st' <= length (studyQueue st'))%nat.
Proof.
  intros Hc. pose proof (lookup_lt_Some _ _ _ Hc) as Hlt.
  unfold reviewed. cbn. destruct (quality =? 0).
  - rewrite (moveToEnd_insert _ _ _ _ Hc), (length_without _ _ _ _ Hc). lia.
  - lia.
Qed.

(** X9.  A session never runs past its queue.  After any run of reviews
    that all complete, the queue has the length it had, the cursor and the
    count of reviewed cards have advanced by the number of ratings other
    than 0, and the cursor is at most the length of the queue; so a session
    on [n] cards is over after exactly [n] passing reviews, however many
    "Again" come in between. *)
Theorem review_run_advances_by_its_passes
    (engine : Card -> Z -> Z -> option Card) (ratings : list (Z * Z))
    (st st' : State) :
  (currentCardIndex st <= length (studyQueue st))%nat ->
  reviewRun engine ratings st = Done st' ->
  length (studyQueue st') = length (studyQueue st) /\
  currentCardIndex st' = (currentCardIndex st + passes ratings)%nat /\
  reviewedCount st' = (reviewedCount st + passes ratings)%nat /\
  (currentCardIndex st' <= length (studyQueue st'))%nat.
Proof.
  revert st. induction ratings as [|[quality now] rest IH]; intros st Hle H.
  - injection H as <-. unfold passes. simpl. lia.
  - simpl in H.
    destruct (studyQueue st !! currentCardIndex st) as [card|] eqn:Hc;
      [|unfold App.handleReview in H; rewrite Hc in H; discriminate H].
    rewrite (handleReview_run engine st card quality now Fulfilled Hc) in H.
    destruct (engine card quality now) as [updated|]; [|discriminate H].
    destruct (reviewed_progress st card updated quality Hc) as (Hl & Hi & Hr & Hb).
    apply IH in H; [|exact Hb]. destruct H as (Hl' & Hi' & Hr' & Hb').
    unfold passes in *. rewrite filter_cons. simpl.
    destruct (Z.eqb_spec quality 0) as [-> | Hne].
    + rewrite decide_False by (intros Hq; now apply Hq). lia.
    + rewrite decide_True by exact Hne. simpl. lia.
Qed.

Lemma review_run_advances_by_its_passes_witness :
  exists st',
    reviewRun Flat.calculateNextReview
      [(0, 5000); (3, 5010); (5, 5020); (0, 5030); (3, 5040)] threeCards
    = Done st' /\
    length (studyQueue st') = 3%nat /\
    currentCardIndex st' = 3%nat /\ reviewedCount st' = 3%nat.
Proof.
  destruct (reviewRun Flat.calculateNextReview
              [(0, 5000); (3, 5010); (5, 5020); (0, 5030); (3, 5040)] threeCards)
    as [st'| |] eqn:E; [|vm_compute in E; discriminate E ..].
  exists st'. split; [reflexivity|].
  destruct (review_run_advances_by_its_passes Flat.calculateNextReview
              [(0, 5000); (3, 5010); (5, 5020); (0, 5030); (3, 5040)]
              threeCards st') as (Hl & Hi & Hr & _);
    [simpl; lia | exact E |].
  split; [exact Hl|]. split; [exact Hi | exact Hr].
Defined.

(** ** [app.js]: the practice mode that leaves the schedule alone *)

(** X10.  In the practice mode of the variant that leaves the schedule
    alone, a review calls neither the engine nor the database and leaves the
    table and the undo slot as they are, for every quality and whatever the
    engine and the database would have answered: with quality 0 the card
    goes to the end of the queue as it is, otherwise the cursor and the
    count advance.  [undo] does nothing, even when the slot holds a card
    from an earlier session. *)
Theorem practice_review_only_moves_in_the_queue
    (engine : Card -> Z -> Z -> option Card) (st : State) (card : Card)
    (quality now : Z) (io : Settled) :
  isPracticeMode st = true ->
  studyQueue st !! currentCardIndex st = Some card ->
  only_moves_in_queue st card quality
    (AppStudyOnly.handleReview engine quality now io st) /\
  AppStudyOnly.undoLastAction io st = Done st.
Proof.
  intros Hm Hc. split.
  - unfold only_moves_in_queue, AppStudyOnly.handleReview. rewrite Hc, Hm. cbn.
    rewrite Hm.
    destruct (Z.eqb_spec quality 0) as [-> | Hne].
    + eexists. split; [reflexivity|]. cbn.
      unfold moveToEnd. rewrite Hc, delete_take_drop, <- app_assoc.
      repeat split; try assumption; intros; congruence.
    + eexists. split; [reflexivity|]. cbn.
      repeat split; try assumption; intros; congruence.
  - unfold AppStudyOnly.undoLastAction. rewrite Hm.
    destruct (lastAction st); reflexivity.
Qed.

Lemma practice_review_only_moves_in_the_queue_witness :
  let st := set_isPracticeMode true threeCards in
  let card := createCard "c0" "kot" "cat" 1000 in
  only_moves_in_queue st card 0
    (AppStudyOnly.handleReview Flat.calculateNextReview 0 5000 Rejected st) /\
  AppStudyOnly.undoLastAction Rejected st = Done st.
Proof.
  intros st card.
  apply (practice_review_only_moves_in_the_queue Flat.calculateNextReview st
           card 0 5000 Rejected); reflexivity.
Defined.

(** ** [app.js]: the shuffle *)

Section Shuffle.

Context {A : Type}.
Implicit Types (array target : list A) (random : nat -> nat).

Lemma length_swap i j array : length (swap i j array) = length array.
Proof.
  unfold swap. destruct (array !! i), (array !! j); try reflexivity.
  now rewrite !length_insert.
Qed.

Lemma insert_found_perm array j x y :
  array !! j = Some y -> y :: <[j := x]> array ≡ₚ x :: array.
Proof.
  revert j. induction array as [|a array IH]; intros [|j] H; try discriminate.
  - injection H as ->. simpl. apply Permutation_swap.
  - simpl in *. rewrite (Permutation_swap a y), (IH j H). apply Permutation_swap.
Qed.

Lemma swap_perm i j array : swap i j array ≡ₚ array.
Proof.
  unfold swap.
  destruct (array !! i) as [x|] eqn:Hi; [|reflexivity].
  destruct (array !! j) as [y|] eqn:Hj; [|reflexivity].
  revert i j Hi Hj. induction array as [|a array IH]; intros [|i] [|j] Hi Hj;
    try discriminate; simpl in *.
  - injection Hi as ->. reflexivity.
  - injection Hi as ->. rewrite (insert_found_perm array j x y Hj). reflexivity.
  - injection Hj as ->. apply (insert_found_perm array i y x Hi).
  - constructor. now apply IH.
Qed.

Lemma shuffleFrom_perm random i array : shuffleFrom random i array ≡ₚ array.
Proof.
  revert array. induction i as [|i IH]; intros array; [reflexivity|].
  simpl. rewrite IH. apply swap_perm.
Qed.

Lemma swap_app i j array rest :
  (i < length array)%nat -> (j < length array)%nat ->
  swap i j (array ++ rest) = swap i j array ++ rest.
Proof.
  intros Hi Hj. unfold swap. rewrite !lookup_app_l by assumption.
  destruct (array !! i), (array !! j); try reflexivity.
  rewrite !insert_app_l; [reflexivity| |assumption].
  now rewrite length_insert.
Qed.

Lemma shuffleFrom_app random i array rest :
  (forall k, (random k <= k)%nat) -> (i < length array)%nat ->
  shuffleFrom random i (array ++ rest) = shuffleFrom random i array ++ rest.
Proof.
  intros Hr. revert array. induction i as [|i IH]; intros array Hi; [reflexivity|].
  simpl. rewrite swap_app; [|exact Hi|specialize (Hr (S i)); lia].
  apply IH. rewrite length_swap. lia.
Qed.

Lemma shuffleFrom_ext random random' i array :
  (forall k, (k <= i)%nat -> random k = random' k) ->
  shuffleFrom random i array = shuffleFrom random' i array.
Proof.
  revert array. induction i as [|i IH]; intros array H; [reflexivity|].
  simpl. rewrite (H (S i)) by lia. apply IH. intros k Hk. apply H. lia.
Qed.

Lemma swap_last j array x :
  array !! j = Some x -> array <> [] ->
  exists front,
    swap (length array - 1) j array = front ++ [x] /\
    length front = (length array - 1)%nat.
Proof.
  intros Hj Hne.
  assert (Hlen : (0 < length array)%nat)
    by (destruct array; [contradiction|simpl; lia]).
  destruct (lookup_lt_is_Some_2 array (length array - 1)) as [y Hi]; [lia|].
  pose proof (lookup_lt_Some _ _ _ Hj) as Hjlt.
  unfold swap. rewrite Hi, Hj.
  set (i := (length array - 1)%nat) in *.
  set (result := <[j := y]> (<[i := x]> array)).
  assert (Hl : length result = S i)
    by (unfold result; rewrite !length_insert; lia).
  assert (Hx : result !! i = Some x).
  { unfold result. destruct (decide (j = i)) as [-> | Hne'].
    - rewrite list_lookup_insert_eq by (rewrite length_insert; lia). congruence.
    - rewrite list_lookup_insert_ne by exact Hne'.
      apply list_lookup_insert_eq. lia. }
  exists (take i result). split.
  - rewrite <- (take_S_r _ _ _ Hx). rewrite take_ge by lia. reflexivity.
  - rewrite length_take. lia.
Qed.

(** A target order can be reached from every order of the same elements. *)
Lemma shuffle_reaches target : forall array,
  array ≡ₚ target ->
  exists random,
    (forall k, (random k <= k)%nat) /\ shuffleArray random array = target.
Proof.
  induction target as [|x target IH] using rev_ind; intros array Hp.
  - apply Permutation_nil_r in Hp as ->. exists (fun _ => 0%nat).
    split; [intros; lia|reflexivity].
  - assert (Hne : array <> []).
    { intros ->. symmetry in Hp. apply Permutation_nil_r in Hp.
      now destruct target. }
    assert (Hin : x ∈ array) by (rewrite Hp; set_solver).
    apply list_elem_of_lookup_1 in Hin as [j Hj].
    destruct (swap_last j array x Hj Hne) as (front & Hs & Hf).
    assert (Hpf : front ≡ₚ target).
    { apply (Permutation_app_inv_r [x]).
      rewrite <- Hs, swap_perm. exact Hp. }
    destruct (IH front Hpf) as (random' & Hr' & Hsh).
    pose proof (lookup_lt_Some _ _ _ Hj) as Hjlt.
    exists (fun k => if (k =? length array - 1)%nat then j else random' k).
    split.
    + intros k. destruct (Nat.eqb_spec k (length array - 1)); [lia|apply Hr'].
    + unfold shuffleArray in *.
      destruct (length array - 1)%nat as [|i] eqn:Hi.
      * destruct front; [|discriminate Hf].
        apply Permutation_nil_l in Hpf as <-.
        destruct array as [|a [|b array]]; [contradiction| |discriminate Hi].
        destruct j; [|discriminate Hj]. injection Hj as ->. reflexivity.
      * simpl. rewrite Nat.eqb_refl, Hs.
        rewrite shuffleFrom_app.
        -- f_equal. rewrite <- Hsh, Hf. simpl. rewrite Nat.sub_0_r.
           apply shuffleFrom_ext. intros k Hk.
           destruct (Nat.eqb_spec k (S i)); [lia|reflexivity].
        -- intros k. destruct (Nat.eqb_spec k (S i)); [lia|apply Hr'].
        -- lia.
Qed.

End Shuffle.

(** X12.  [shuffleArray] rearranges: with every draw [j] of round [i] in
    [0 .. i], as [Math.floor(Math.random() * (i + 1))] gives it, the result
    has the elements of the array, each as often as the array has it, and
    so the length of the array. *)
Theorem shuffleArray_rearranges {A : Type} (random : nat -> nat)
    (array : list A) :
  (forall i, (random i <= i)%nat) ->
  shuffleArray random array ≡ₚ array /\
  length (shuffleArray random array) = length array.
Proof.
  intros _.
  assert (H : shuffleArray random array ≡ₚ array) by apply shuffleFrom_perm.
  split; [exact H | now rewrite H].
Qed.

Lemma shuffleArray_rearranges_witness :
  shuffleArray (fun i => i / 2)%nat [1; 2; 3; 4; 5] ≡ₚ [1; 2; 3; 4; 5] /\
  length (shuffleArray (fun i => i / 2)%nat [1; 2; 3; 4; 5]) = 5%nat.
Proof.
  apply (shuffleArray_rearranges (fun i => i / 2)%nat [1; 2; 3; 4; 5]).
  intros i. apply Nat.Div0.div_le_upper_bound. lia.
Defined.

(** X13.  [shuffleArray] can give every order: for each rearrangement of
    the array there are draws, the one of round [i] in [0 .. i], with which
    the shuffle returns it. *)
Theorem shuffleArray_reaches_every_order {A : Type} (array target : list A) :
  array ≡ₚ target ->
  exists random,
    (forall i, (random i <= i)%nat) /\ shuffleArray random array = target.
Proof.
  apply shuffle_reaches.
Qed.

Lemma shuffleArray_reaches_every_order_witness :
  exists random,
    (forall i, (random i <= i)%nat) /\
    shuffleArray random [1; 2; 3; 4] = [3; 1; 4; 2].
Proof.
  apply (shuffleArray_reaches_every_order [1; 2; 3; 4] [3; 1; 4; 2]).
  apply (Permutation_trans (l' := [1; 3; 2; 4])).
  - constructor. apply Permutation_swap.
  - rewrite (Permutation_swap 3 1). constructor.
    rewrite (Permutation_swap 4 2). reflexivity.
Defined.

(** ** [app.js]: the start of a practice session *)

Section Practice.

Lemma getAllCards_perm (table : gmap string Card) :
  getAllCards table ≡ₚ (map_to_list table).*2.
Proof.
  unfold getAllCards. now rewrite <- Array_sort_perm.
Qed.

Lemma elem_of_getAllCards (table : gmap string Card) c :
  table_keyed table -> c ∈ getAllCards table <-> table !! id c = Some c.
Proof.
  intros Hk. rewrite getAllCards_perm, list_elem_of_fmap. split.
  - intros ([k c'] & -> & Hin). apply elem_of_map_to_list in Hin. simpl in *.
    now rewrite (Hk _ _ Hin).
  - intros Hl. exists (id c, c). split; [reflexivity|].
    now apply elem_of_map_to_list.
Qed.

Lemma getAllCards_ids (table : gmap string Card) :
  table_keyed table -> NoDup (id <$> getAllCards table).
Proof.
  intros Hk. rewrite getAllCards_perm, ids_of_keyed.
  - apply (NoDup_fst_map_to_list table).
  - now apply (listed_keyed table).
Qed.

Lemma length_getAllCards (table : gmap string Card) :
  length (getAllCards table) = size table.
Proof.
  now rewrite getAllCards_perm, length_fmap, length_map_to_list.
Qed.

Lemma getAllCards_nil (table : gmap string Card) :
  getAllCards table = [] <-> table = ∅.
Proof.
  rewrite <- length_zero_iff_nil, length_getAllCards. apply map_size_empty_iff.
Qed.

Lemma practice_session st (queue : list Card) :
  table_keyed (cards st) -> cards st <> ∅ ->
  queue ≡ₚ getAllCards (cards st) ->
  practice_started st
    (Done (set_lastAction None (set_reviewedCount 0 (set_currentCardIndex 0
       (set_studyQueue queue (set_isPracticeMode true st)))))).
Proof.
  intros Hk Hne Hp. eexists. split; [reflexivity|]. cbn.
  split; [reflexivity|]. split; [reflexivity|].
  split; [|intros He; contradiction].
  intros _.
  assert (Hmem : forall c, c ∈ queue <-> cards st !! id c = Some c).
  { intros c. rewrite Hp. now apply elem_of_getAllCards. }
  split; [exact Hmem|]. split; [now rewrite Hp, length_getAllCards|].
  split; [reflexivity|]. split; [reflexivity|]. split; [reflexivity|].
  match goal with
  | |- session_invariant ?s => assert (Hok : session_ok s)
  end.
  { unfold session_ok. cbn.
    split; [rewrite Hp; now apply getAllCards_ids|].
    split; [exact Hk|]. split.
    - intros c Hin. apply Hmem in Hin. eauto.
    - intros i c _ Hl. apply list_elem_of_lookup_2 in Hl. now apply Hmem. }
  split; [exact Hok|].
  intros st''. unfold App.undoLastAction. cbn. intros [= <-]. exact Hok.
Qed.

Lemma practice_not_started st :
  cards st = ∅ -> practice_started st (Done (set_isPracticeMode true st)).
Proof.
  intros He. eexists. split; [reflexivity|]. cbn.
  split; [reflexivity|]. split; [reflexivity|].
  split; [intros Hne; contradiction|]. intros _. repeat split.
Qed.

Lemma by_due_date_consistent :
  Consistent (fun a b : Card => dueDate a - dueDate b).
Proof.
  split; intros; lia.
Qed.

End Practice.

(** X14.  [startPractice] queues every card.  On a table whose records are
    stored under their [id], both variants of [startPractice] put every
    record of a table that is not empty into the queue, each once and as
    the table has it, with the cursor and the count of reviewed cards at 0
    and an empty undo slot, and the session invariant holds; the variant
    that shuffles does so for all draws in range.  On an empty table the
    session does not start: queue, cursor, count and undo slot stay as they
    were.  In both cases the table is untouched and the practice mode is
    on. *)
Theorem startPractice_queues_every_card (random : nat -> nat) (st : State) :
  table_keyed (cards st) ->
  (forall i, (random i <= i)%nat) ->
  practice_started st (AppStart.startPractice Fulfilled st) /\
  practice_started st (AppStudyOnlyStart.startPractice random Fulfilled st).
Proof.
  intros Hk Hr.
  unfold AppStart.startPractice, AppStudyOnlyStart.startPractice. cbn.
  destruct (decide (cards st = ∅)) as [He | Hne].
  - pose proof (proj2 (getAllCards_nil (cards st)) He) as Hnil.
    rewrite Hnil. cbn. split; now apply practice_not_started.
  - destruct (getAllCards (cards st)) as [|c l] eqn:E.
    { apply getAllCards_nil in E. contradiction. }
    cbn [length Nat.eqb]. rewrite <- E. split.
    + apply practice_session; [exact Hk|exact Hne|].
      now rewrite <- Array_sort_perm.
    + apply practice_session; [exact Hk|exact Hne|].
      unfold shuffleArray. apply shuffleFrom_perm.
Qed.

Lemma startPractice_queues_every_card_witness :
  practice_started threeCards (AppStart.startPractice Fulfilled threeCards) /\
  practice_started threeCards
    (AppStudyOnlyStart.startPractice (fun i => i / 2)%nat Fulfilled threeCards).
Proof.
  apply (startPractice_queues_every_card (fun i => i / 2)%nat threeCards).
  - apply (bool_decide_unpack
             (map_Forall (fun k c => id c = k) (cards threeCards))).
    vm_compute. exact I.
  - intros i. apply Nat.Div0.div_le_upper_bound. lia.
Defined.

(** X15.  The practice session of the variant that updates the schedule in
    both modes shows the cards soonest due first: in the queue that
    [startPractice] builds from a table that is not empty, a card never
    comes before a card with an earlier due date. *)
Theorem practice_queue_is_by_due_date (st st' : State) :
  cards st <> ∅ ->
  AppStart.startPractice Fulfilled st = Done st' ->
  soonest_due_first (studyQueue st').
Proof.
  intros Hne H. unfold AppStart.startPractice in H. cbn in H.
  destruct (getAllCards (cards st)) as [|c l] eqn:E.
  { apply getAllCards_nil in E. contradiction. }
  cbn [length Nat.eqb] in H. injection H as <-. cbn.
  intros i j a b Hij Ha Hb.
  pose proof (sorted_lookup (fun a b : Card => dueDate a - dueDate b)
                _ i j a b
                (Array_sort_sorted _ by_due_date_consistent (c :: l))
                Hij Ha Hb) as Hle.
  cbv beta in Hle. lia.
Qed.

Lemma practice_queue_is_by_due_date_witness :
  exists st',
    AppStart.startPractice Fulfilled threeCards = Done st' /\
    soonest_due_first (studyQueue st').
Proof.
  eexists. split; [reflexivity|].
  apply (practice_queue_is_by_due_date threeCards); [|reflexivity].
  intros He. apply (f_equal size) in He. vm_compute in He. discriminate He.
Defined.

(** ** [import.js]: the parser *)

Section Parser.

Import ImportParser.

Implicit Types (s line text : JSString) (c : N).

Lemma trimStart_app_clean l c r :
  isWhiteSpace c = false -> trimStart (l ++ c :: r) = trimStart l ++ c :: r.
Proof.
  intros Hc. induction l as [|a l IH]; simpl.
  - now rewrite Hc.
  - destruct (isWhiteSpace a); [exact IH|reflexivity].
Qed.

Lemma trimStart_clean s : starts_clean (trimStart s).
Proof.
  induction s as [|a s IH]; simpl; [exact I|].
  destruct (isWhiteSpace a) eqn:E; [exact IH|exact E].
Qed.

Lemma trimStart_id s : starts_clean s -> trimStart s = s.
Proof.
  destruct s as [|a s]; simpl; [reflexivity|]. now intros ->.
Qed.

Lemma trimEnd_clean s : ends_clean (trimEnd s).
Proof.
  unfold ends_clean, ImportParser.trimEnd. rewrite rev_involutive.
  apply trimStart_clean.
Qed.

Lemma trimEnd_id s : ends_clean s -> trimEnd s = s.
Proof.
  unfold ends_clean, ImportParser.trimEnd. intros H.
  rewrite trimStart_id by exact H. apply rev_involutive.
Qed.

Lemma trimEnd_starts s : starts_clean s -> starts_clean (trimEnd s).
Proof.
  destruct s as [|c r]; [intros _; exact I|]. simpl. intros H.
  unfold ImportParser.trimEnd. simpl rev.
  rewrite trimStart_app_clean by exact H.
  rewrite rev_app_distr. simpl. exact H.
Qed.

Lemma trim_clean s : starts_clean (trim s) /\ ends_clean (trim s).
Proof.
  unfold ImportParser.trim. split.
  - apply trimEnd_starts, trimStart_clean.
  - apply trimEnd_clean.
Qed.

Lemma trim_id s : starts_clean s -> ends_clean s -> trim s = s.
Proof.
  intros Hs He. unfold ImportParser.trim.
  rewrite (trimStart_id s Hs). now apply trimEnd_id.
Qed.

Lemma trim_fixed s : trim s = s -> starts_clean s /\ ends_clean s.
Proof.
  intros <-. apply trim_clean.
Qed.

Lemma trim_trim s : trim (trim s) = trim s.
Proof.
  apply trim_id; apply trim_clean.
Qed.

Lemma trimStart_suffix s : trimStart s `suffix_of` s.
Proof.
  induction s as [|a s IH]; simpl; [reflexivity|].
  destruct (isWhiteSpace a); [now apply suffix_cons_r|reflexivity].
Qed.

Lemma elem_of_rev s c : c ∈ rev s <-> c ∈ s.
Proof.
  rewrite !list_elem_of_In. symmetry. apply in_rev.
Qed.

Lemma elem_of_trim s c : c ∈ trim s -> c ∈ s.
Proof.
  unfold ImportParser.trim, ImportParser.trimEnd. intros H.
  rewrite elem_of_rev in H.
  destruct (trimStart_suffix (rev (trimStart s))) as [p1 H1].
  assert (H' : c ∈ rev (trimStart s)).
  { rewrite H1. apply elem_of_app. now right. }
  rewrite elem_of_rev in H'.
  destruct (trimStart_suffix s) as [p2 H2]. rewrite H2.
  apply elem_of_app. now right.
Qed.

Lemma split_not_nil sep s : split sep s <> [].
Proof.
  destruct s as [|c s]; simpl; [discriminate|].
  destruct (c =? sep)%N; [discriminate|].
  destruct (split sep s); discriminate.
Qed.

Lemma split_no_sep sep s : Forall (fun line => sep ∉ line) (split sep s).
Proof.
  induction s as [|c s IH]; simpl.
  - constructor; [set_solver|constructor].
  - destruct (N.eqb_spec c sep) as [-> | Hne].
    + constructor; [set_solver|exact IH].
    + destruct (split sep s) as [|line lines].
      * constructor; [|constructor].
        intros H. apply list_elem_of_singleton in H. congruence.
      * apply Forall_cons in IH as [Hl Hls].
        constructor; [|exact Hls].
        intros H. apply elem_of_cons in H as [H | H]; [congruence|contradiction].
Qed.

Lemma split_app sep a b :
  split sep (a ++ sep :: b) = split sep a ++ split sep b.
Proof.
  induction a as [|c a IH]; simpl.
  - now rewrite N.eqb_refl.
  - destruct (c =? sep)%N; [now rewrite IH|].
    rewrite IH. destruct (split sep a) as [|line lines] eqn:E; [|reflexivity].
    now apply split_not_nil in E.
Qed.

Lemma split_one sep line : sep ∉ line -> split sep line = [line].
Proof.
  induction line as [|c line IH]; intros H; simpl; [reflexivity|].
  destruct (N.eqb_spec c sep) as [-> | Hne]; [set_solver|].
  rewrite IH by set_solver. reflexivity.
Qed.

Lemma split_join lines :
  lines <> [] -> Forall (fun line => newline ∉ line) lines ->
  split newline (join lines) = lines.
Proof.
  induction lines as [|line rest IH]; intros Hne Hl; [contradiction|].
  apply Forall_cons in Hl as [Hline Hrest].
  destruct rest as [|line' rest'].
  - simpl. now apply split_one.
  - change (join (line :: line' :: rest'))
      with (line ++ newline :: join (line' :: rest')).
    rewrite split_app, split_one by exact Hline.
    rewrite IH; [reflexivity|discriminate|exact Hrest].
Qed.

Lemma indexOf_range c s :
  indexOf c s = -1 \/ 0 <= indexOf c s < Z.of_nat (length s).
Proof.
  induction s as [|d s IH]; simpl; [now left|].
  destruct (d =? c)%N; [right; lia|].
  destruct (Z.eqb_spec (indexOf c s) (-1)); [now left|right; lia].
Qed.

Lemma indexOf_first c s :
  indexOf c s <> -1 -> c ∉ take (Z.to_nat (indexOf c s)) s.
Proof.
  induction s as [|d s IH]; simpl; [intros _; set_solver|].
  destruct (N.eqb_spec d c) as [-> | Hne]; [intros _; simpl; set_solver|].
  destruct (Z.eqb_spec (indexOf c s) (-1)) as [|Hi]; [intros H; contradiction|].
  intros _. destruct (indexOf_range c s) as [|Hr]; [contradiction|].
  replace (Z.to_nat (indexOf c s + 1)) with (S (Z.to_nat (indexOf c s))) by lia.
  simpl. specialize (IH Hi).
  intros H. apply elem_of_cons in H as [H | H]; [congruence|contradiction].
Qed.

Lemma indexOf_found c front back :
  c ∉ front -> indexOf c (front ++ c :: back) = Z.of_nat (length front).
Proof.
  induction front as [|d front IH]; intros H; simpl.
  - now rewrite N.eqb_refl.
  - destruct (N.eqb_spec d c) as [-> | Hne]; [set_solver|].
    rewrite IH by set_solver.
    destruct (Z.eqb_spec (Z.of_nat (length front)) (-1)); lia.
Qed.

Lemma substring_before s i :
  0 <= i <= Z.of_nat (length s) ->
  substring s 0 (Some i) = take (Z.to_nat i) s.
Proof.
  intros H. unfold ImportParser.substring.
  replace (Z.to_nat (Z.min _ _)) with 0%nat by lia.
  replace (Z.to_nat (Z.max _ _)) with (Z.to_nat i) by lia.
  now rewrite Nat.sub_0_r.
Qed.

Lemma substring_after s i :
  0 <= i <= Z.of_nat (length s) ->
  substring s i None = drop (Z.to_nat i) s.
Proof.
  intros H. unfold ImportParser.substring.
  replace (Z.to_nat (Z.min _ _)) with (Z.to_nat i) by lia.
  replace (Z.to_nat (Z.max _ _)) with (length s) by lia.
  apply take_ge. rewrite length_drop. lia.
Qed.

(** What one line adds. *)
Lemma parseLine_acc cards line : parseLine cards line = cards ++ parseLine [] line.
Proof.
  unfold ImportParser.parseLine. cbv zeta.
  repeat match goal with
         | |- context [if ?b then _ else _] => destruct b
         end; now rewrite ?app_nil_r.
Qed.

Lemma foldl_parseLine cards lines :
  foldl parseLine cards lines = cards ++ foldl parseLine [] lines.
Proof.
  revert cards. induction lines as [|line lines IH]; intros cards; simpl.
  - now rewrite app_nil_r.
  - rewrite IH, (IH (parseLine [] line)), parseLine_acc. now rewrite app_assoc.
Qed.

Lemma foldl_parseLine_app lines lines' :
  foldl parseLine [] (lines ++ lines')
  = foldl parseLine [] lines ++ foldl parseLine [] lines'.
Proof.
  rewrite foldl_app. apply foldl_parseLine.
Qed.

Lemma parseImportText_lines text :
  parseImportText text = foldl parseLine [] (split newline text).
Proof.
  unfold ImportParser.parseImportText.
  destruct (bool_decide_reflect (text = [])) as [-> |]; reflexivity.
Qed.

Lemma parseLine_well_formed line card :
  newline ∉ line -> card ∈ parseLine [] line -> well_formed card.
Proof.
  intros Hnl. unfold ImportParser.parseLine. cbv zeta.
  destruct (bool_decide_reflect (trim line = [])) as [|Hne]; [set_solver|].
  destruct (Z.eqb_spec (indexOf comma (trim line)) (-1)) as [|Hi]; [set_solver|].
  destruct (indexOf_range comma (trim line)) as [|Hr]; [contradiction|].
  rewrite substring_before, substring_after by lia.
  destruct (bool_decide_reflect
              (trim (take (Z.to_nat (indexOf comma (trim line))) (trim line)) = []))
    as [|Hf]; [set_solver|].
  destruct (bool_decide_reflect
              (trim (drop (Z.to_nat (indexOf comma (trim line) + 1)) (trim line)) = []))
    as [|Hb]; [set_solver|].
  simpl. intros Hin. apply list_elem_of_singleton in Hin as ->.
  unfold well_formed. simpl.
  split; [exact Hf|]. split; [exact Hb|].
  split; [apply trim_trim|]. split; [apply trim_trim|].
  split; [|split].
  - intros H. apply elem_of_trim in H. now apply indexOf_first in H.
  - intros H. apply elem_of_trim in H.
    apply Hnl, elem_of_trim. eapply subseteq_take; eauto.
  - intros H. apply elem_of_trim in H.
    apply Hnl, elem_of_trim. eapply subseteq_drop; eauto.
Qed.

Lemma elem_of_foldl_parseLine lines card :
  card ∈ foldl parseLine [] lines ->
  exists line, line ∈ lines /\ card ∈ parseLine [] line.
Proof.
  induction lines as [|line lines IH]; simpl; [set_solver|].
  rewrite foldl_parseLine, elem_of_app. intros [H | H].
  - exists line. split; [left|exact H].
  - destruct (IH H) as (l & Hl & Hc). exists l. split; [now right|exact Hc].
Qed.

Lemma trimStart_blanks p s :
  Forall (fun c => isWhiteSpace c = true) p -> trimStart (p ++ s) = trimStart s.
Proof.
  induction 1 as [|c p Hc _ IH]; [reflexivity|]. simpl. now rewrite Hc.
Qed.

Lemma trimEnd_blanks s p :
  Forall (fun c => isWhiteSpace c = true) p -> trimEnd (s ++ p) = trimEnd s.
Proof.
  intros Hp. unfold ImportParser.trimEnd.
  rewrite rev_app_distr, trimStart_blanks; [reflexivity|].
  apply Forall_forall. intros c Hc. rewrite elem_of_rev in Hc.
  rewrite Forall_forall in Hp. now apply Hp.
Qed.

Lemma starts_clean_app s r : s <> [] -> starts_clean s -> starts_clean (s ++ r).
Proof.
  destruct s; [contradiction|]. intros _ H. exact H.
Qed.

Lemma ends_clean_app r s : s <> [] -> ends_clean s -> ends_clean (r ++ s).
Proof.
  unfold ends_clean. intros Hne H. rewrite rev_app_distr.
  apply starts_clean_app; [|exact H].
  intros E. apply (f_equal (@rev N)) in E. rewrite rev_involutive in E.
  contradiction.
Qed.

Lemma trim_padded p s q :
  Forall (fun c => isWhiteSpace c = true) p ->
  Forall (fun c => isWhiteSpace c = true) q ->
  s <> [] -> starts_clean s -> ends_clean s ->
  trim (p ++ s ++ q) = s.
Proof.
  intros Hp Hq Hne Hs He. unfold ImportParser.trim.
  rewrite trimStart_blanks by exact Hp.
  rewrite trimStart_id by (now apply starts_clean_app).
  rewrite trimEnd_blanks by exact Hq. now apply trimEnd_id.
Qed.

Lemma trim_padded_r s q :
  Forall (fun c => isWhiteSpace c = true) q ->
  s <> [] -> starts_clean s -> ends_clean s -> trim (s ++ q) = s.
Proof.
  intros. now apply (trim_padded [] s q).
Qed.

Lemma trim_padded_l p s :
  Forall (fun c => isWhiteSpace c = true) p ->
  s <> [] -> starts_clean s -> ends_clean s -> trim (p ++ s) = s.
Proof.
  intros. rewrite <- (app_nil_r s) at 1. now apply (trim_padded p s []).
Qed.

Lemma indexOf_absent c s : c ∉ s -> indexOf c s = -1.
Proof.
  induction s as [|d s IH]; intros H; simpl; [reflexivity|].
  destruct (N.eqb_spec d c) as [-> | Hne]; [exfalso; apply H; left|].
  rewrite IH; [reflexivity|]. intros Hin. apply H. now right.
Qed.

Lemma blank_white p : Forall blank p -> Forall (fun c => isWhiteSpace c = true) p.
Proof.
  intros H. eapply Forall_impl; [exact H|]. now intros c [Hc _].
Qed.

Lemma blank_without p c :
  Forall blank p -> isWhiteSpace c = false \/ c = newline -> c ∉ p.
Proof.
  intros Hp Hc Hin. rewrite Forall_forall in Hp.
  destruct (Hp c Hin) as [Hw Hn]. destruct Hc as [Hc | Hc]; congruence.
Qed.

Lemma parseLine_written card line :
  well_formed card -> written_as card line -> parseLine [] line = [card].
Proof.
  destruct card as [f b]. unfold well_formed. simpl.
  intros (Hf & Hb & Htf & Htb & Hc & _ & _) (p1 & p2 & p3 & p4 & Hp & ->).
  simpl.
  apply Forall_app in Hp as [Hp1 Hp]. apply Forall_app in Hp as [Hp2 Hp].
  apply Forall_app in Hp as [Hp3 Hp4].
  apply trim_fixed in Htf as [Hfs Hfe]. apply trim_fixed in Htb as [Hbs Hbe].
  set (inner := (f ++ p2) ++ comma :: p3 ++ b).
  assert (Hline :
    trim (p1 ++ f ++ p2 ++ comma :: p3 ++ b ++ p4) = inner).
  { replace (p1 ++ f ++ p2 ++ comma :: p3 ++ b ++ p4) with (p1 ++ inner ++ p4)
      by (unfold inner; now rewrite <- !app_assoc, <- !app_comm_cons, <- !app_assoc).
    apply trim_padded; try now apply blank_white.
    - unfold inner. now destruct f.
    - unfold inner. rewrite <- app_assoc. now apply starts_clean_app.
    - unfold inner.
      replace ((f ++ p2) ++ comma :: p3 ++ b)
        with (((f ++ p2) ++ comma :: p3) ++ b)
        by (now rewrite <- !app_assoc, <- !app_comm_cons).
      now apply ends_clean_app. }
  unfold ImportParser.parseLine. cbv zeta. rewrite Hline.
  assert (Hnc : comma ∉ f ++ p2).
  { intros H. apply elem_of_app in H as [H | H]; [contradiction|].
    revert H. apply blank_without; [exact Hp2|now left]. }
  unfold inner. rewrite indexOf_found by exact Hnc.
  rewrite bool_decide_eq_false_2 by (now destruct f).
  destruct (Z.eqb_spec (Z.of_nat (length (f ++ p2))) (-1)); [lia|].
  rewrite substring_before, substring_after
    by (rewrite (length_app (f ++ p2)); simpl; lia).
  rewrite Nat2Z.id.
  replace (Z.to_nat (Z.of_nat (length (f ++ p2)) + 1))
    with (length (f ++ p2) + 1)%nat by lia.
  rewrite take_app_length, <- drop_drop, drop_app_length. simpl drop.
  rewrite drop_0.
  rewrite (trim_padded_r f p2), (trim_padded_l p3 b);
    try assumption; try (now apply blank_white).
  rewrite !bool_decide_eq_false_2 by assumption.
  reflexivity.
Qed.

Lemma parseLine_ignored line : comma ∉ line -> parseLine [] line = [].
Proof.
  intros H. unfold ImportParser.parseLine. cbv zeta.
  destruct (bool_decide (trim line = [])); [reflexivity|].
  rewrite indexOf_absent; [reflexivity|].
  intros Hin. now apply elem_of_trim in Hin.
Qed.

Lemma written_no_newline card line :
  well_formed card -> written_as card line -> newline ∉ line.
Proof.
  destruct card as [f b]. unfold well_formed. simpl.
  intros (_ & _ & _ & _ & _ & Hf & Hb) (p1 & p2 & p3 & p4 & Hp & ->). simpl.
  apply Forall_app in Hp as [Hp1 Hp]. apply Forall_app in Hp as [Hp2 Hp].
  apply Forall_app in Hp as [Hp3 Hp4].
  assert (Hn : forall p, Forall blank p -> newline ∉ p)
    by (intros p Hp; apply blank_without; [exact Hp|now right]).
  rewrite !elem_of_app, elem_of_cons, !elem_of_app.
  intros [H | [H | [H | [H | [H | [H | H]]]]]];
    try contradiction; try (revert H; now apply Hn).
  discriminate H.
Qed.

Lemma reads_no_newline lines cards :
  reads lines cards -> Forall (fun line => newline ∉ line) lines.
Proof.
  induction 1 as [|card line lines cards Hw Hl _ IH|line lines cards [Hn _] _ IH];
    constructor; try assumption.
  eapply written_no_newline; eauto.
Qed.

Lemma reads_parse lines cards :
  reads lines cards -> foldl parseLine [] lines = cards.
Proof.
  induction 1 as [|card line lines cards Hw Hl _ IH|line lines cards [_ Hc] _ IH];
    simpl; [reflexivity| |].
  - rewrite foldl_parseLine, IH, (parseLine_written card line Hw Hl). reflexivity.
  - rewrite foldl_parseLine, IH, (parseLine_ignored line Hc). reflexivity.
Qed.

End Parser.

(** X16.  Every card that [parseImportText] returns is well formed: its
    front and its back are not empty and have no white space at either end,
    the front has no comma, and neither side has a line break. *)
Theorem parsed_cards_are_well_formed
    (text : ImportParser.JSString) (card : ImportParser.Parsed) :
  card ∈ ImportParser.parseImportText text -> well_formed card.
Proof.
  rewrite parseImportText_lines. intros H.
  apply elem_of_foldl_parseLine in H as (line & Hl & Hc).
  apply (parseLine_well_formed line); [|exact Hc].
  pose proof (split_no_sep ImportParser.newline text) as Hs.
  rewrite Forall_forall in Hs. now apply Hs.
Qed.

Lemma parsed_cards_are_well_formed_witness :
  well_formed (ImportParser.mkParsed (codeUnits "kot") (codeUnits "cat, feline")).
Proof.
  apply (parsed_cards_are_well_formed
           (codeUnits (" kot , cat, feline " +:+ String (Ascii.ascii_of_nat 10) ",x"))).
  vm_compute. left.
Defined.

(** X17.  [parseImportText] reads its text line by line: the cards of two
    texts joined by a line break are the cards of the first followed by the
    cards of the second, and [countValidCards] adds up. *)
Theorem parseImportText_reads_line_by_line (a b : ImportParser.JSString) :
  ImportParser.parseImportText (a ++ ImportParser.newline :: b)
  = ImportParser.parseImportText a ++ ImportParser.parseImportText b /\
  ImportParser.countValidCards (a ++ ImportParser.newline :: b)
  = (ImportParser.countValidCards a + ImportParser.countValidCards b)%nat.
Proof.
  assert (H : ImportParser.parseImportText (a ++ ImportParser.newline :: b)
              = ImportParser.parseImportText a ++ ImportParser.parseImportText b).
  { rewrite !parseImportText_lines, split_app. apply foldl_parseLine_app. }
  split; [exact H|].
  unfold ImportParser.countValidCards. now rewrite H, length_app.
Qed.

(** X18.  [parseImportText] implements the format that [import.js]
    documents.  For lines without a line break inside, of which each is
    either "front,back" for a well-formed card, with any blanks around the
    line and around the first comma, or a line without comma, the parser
    returns, from the lines joined by line breaks, the cards of the lines
    of the first kind, in their order: the first comma separates, the back
    keeps its other commas, blanks are trimmed, and the other lines are
    ignored. *)
Theorem parseImportText_reads_the_format
    (lines : list ImportParser.JSString) (cards : list ImportParser.Parsed) :
  reads lines cards ->
  ImportParser.parseImportText (ImportParser.join lines) = cards /\
  ImportParser.countValidCards (ImportParser.join lines) = length cards.
Proof.
  intros H.
  assert (Hp : ImportParser.parseImportText (ImportParser.join lines) = cards).
  { rewrite parseImportText_lines.
    destruct lines as [|line lines'] eqn:E.
    - inversion H. reflexivity.
    - rewrite <- E in *. rewrite split_join.
      + now apply reads_parse.
      + now rewrite E.
      + eapply reads_no_newline; eauto. }
  split; [exact Hp|].
  unfold ImportParser.countValidCards. now rewrite Hp.
Qed.

Lemma parseImportText_reads_the_format_witness :
  let kot := ImportParser.mkParsed (codeUnits "kot") (codeUnits "cat, feline") in
  let pies := ImportParser.mkParsed (codeUnits "pies") (codeUnits "dog") in
  let lines := [codeUnits "  kot , cat, feline "; codeUnits "";
                codeUnits "no comma here"; codeUnits "pies,dog"] in
  ImportParser.parseImportText (ImportParser.join lines) = [kot; pies] /\
  ImportParser.countValidCards (ImportParser.join lines) = 2%nat.
Proof.
  intros kot pies lines.
  assert (Hwf : forall card,
            bool_decide (well_formed card) = true -> well_formed card)
    by (intros card Hc; exact (bool_decide_eq_true_1 _ Hc)).
  apply (parseImportText_reads_the_format lines [kot; pies]).
  apply reads_card.
  - apply Hwf. vm_compute. reflexivity.
  - exists (codeUnits "  "), (codeUnits " "), (codeUnits " "), (codeUnits " ").
    split; [|reflexivity].
    repeat constructor; discriminate.
  - apply reads_ignored;
      [split; apply (bool_decide_unpack _); vm_compute; exact I|].
    apply reads_ignored;
      [split; apply (bool_decide_unpack _); vm_compute; exact I|].
    apply reads_card; [| |apply reads_nil].
    + apply Hwf. vm_compute. reflexivity.
    + exists [], [], [], []. split; [constructor|reflexivity].
Defined.

(** ** [app.js]: the duplicates of an import *)

Section Duplicates.

Variables toLowerCase trim : string -> string.

Let key (c : Card) : string := trim (toLowerCase (front c)).

Lemma detectDuplicates_run cards : forall existingFronts newCards duplicates,
  exists added skipped,
    detectDuplicates toLowerCase trim existingFronts newCards duplicates cards
    = (newCards ++ added, duplicates ++ skipped) /\
    added `sublist_of` cards /\
    NoDup (key <$> added) /\
    (forall c, c ∈ added -> key c ∉ existingFronts) /\
    (forall c, c ∈ cards ->
       key c ∈ existingFronts \/ exists c', c' ∈ added /\ key c' = key c) /\
    (length added + length skipped = length cards)%nat.
Proof.
  induction cards as [|card rest IH]; intros S new dups.
  - exists [], []. simpl. rewrite !app_nil_r.
    split; [reflexivity|]. split; [constructor|]. split; [constructor|].
    split; [intros c H; now apply elem_of_nil in H|].
    split; [intros c H; now apply elem_of_nil in H|reflexivity].
  - simpl. fold (key card). destruct (decide (key card ∈ S)) as [Hin | Hout].
    + destruct (IH S new (dups ++ [front card]))
        as (added & skipped & -> & Hsub & Hnd & Hnew & Hall & Hlen).
      exists added, (front card :: skipped). rewrite <- app_assoc.
      split; [reflexivity|]. split; [now apply sublist_cons|].
      split; [exact Hnd|]. split; [exact Hnew|]. split.
      * intros c Hc. apply elem_of_cons in Hc as [-> | Hc]; [now left|].
        now apply Hall.
      * simpl. lia.
    + destruct (IH ({[key card]} ∪ S) (new ++ [card]) dups)
        as (added & skipped & -> & Hsub & Hnd & Hnew & Hall & Hlen).
      exists (card :: added), skipped. rewrite <- app_assoc.
      split; [reflexivity|]. split; [now apply sublist_skip|]. split.
      * rewrite fmap_cons. constructor; [|exact Hnd].
        intros Hk. apply list_elem_of_fmap in Hk as (c & Hkc & Hc).
        apply (Hnew c Hc). rewrite <- Hkc. apply elem_of_union. left.
        now apply elem_of_singleton.
      * split; [|split].
        -- intros c Hc. apply elem_of_cons in Hc as [-> | Hc]; [exact Hout|].
           intros Hk. apply (Hnew c Hc). apply elem_of_union. now right.
        -- intros c Hc. apply elem_of_cons in Hc as [-> | Hc].
           ++ right. exists card. split; [left|reflexivity].
           ++ destruct (Hall c Hc) as [Hk | (c' & Hc' & Hk)].
              ** apply elem_of_union in Hk as [Hk | Hk]; [|now left].
                 apply elem_of_singleton in Hk. right. exists card.
                 split; [left|now symmetry].
              ** right. exists c'. split; [now right|exact Hk].
        -- simpl. lia.
Qed.

Lemma submitImport_added cards existing proceed newCards :
  submitImport toLowerCase trim cards existing proceed = Some newCards ->
  (detectDuplicates toLowerCase trim (list_to_set (key <$> existing)) [] [] cards).1
  = newCards /\ newCards <> [].
Proof.
  unfold submitImport. destruct (length cards =? 0)%nat; [discriminate|].
  fold key.
  destruct (detectDuplicates toLowerCase trim (list_to_set (key <$> existing))
              [] [] cards) as [new dups].
  simpl.
  assert (Hne : (0 <? length new)%nat = true -> new <> [])
    by (destruct new; [discriminate|intros _; discriminate]).
  destruct (0 <? length dups)%nat, (0 <? length new)%nat eqn:En; simpl.
  - destruct proceed; simpl; [|discriminate]. intros [= <-]. auto.
  - destruct (length new =? 0)%nat; discriminate.
  - intros [= <-]. auto.
  - discriminate.
Qed.

End Duplicates.

(** X19.  An import adds no duplicate.  Whatever [toLowerCase] and [trim]
    give, when [submitImport] adds cards, these are cards of the text in the
    order of the text and at least one; no two of them have the same front
    up to case and surrounding white space, none has the front of a card
    that the table had; and every card of the text has its front, up to
    case and surrounding white space, on a card that is added or on a card
    of the table. *)
Theorem import_adds_no_duplicate (toLowerCase trim : string -> string)
    (cards existing newCards : list Card) (proceed : bool) :
  submitImport toLowerCase trim cards existing proceed = Some newCards ->
  newCards <> [] /\
  without_duplicates (fun c => trim (toLowerCase (front c)))
    cards existing newCards.
Proof.
  intros H. apply submitImport_added in H as [H Hne]. split; [exact Hne|].
  destruct (detectDuplicates_run toLowerCase trim cards
              (list_to_set ((fun c => trim (toLowerCase (front c))) <$> existing))
              [] [])
    as (added & skipped & E & Hsub & Hnd & Hnew & Hall & _).
  rewrite E in H. simpl in H. subst added.
  split; [exact Hsub|]. split; [exact Hnd|]. split.
  - intros c e Hc He Hk. apply (Hnew c Hc).
    apply elem_of_list_to_set, list_elem_of_fmap. now exists e.
  - intros c Hc. destruct (Hall c Hc) as [Hk | (c' & Hc' & Hk)].
    + apply elem_of_list_to_set, list_elem_of_fmap in Hk as (e & Hk & He).
      exists e. split; [now right|now symmetry].
    + exists c'. split; [now left|exact Hk].
Qed.


Lemma import_adds_no_duplicate_witness :
  let kot := createCard "n1" "Kot" "cat" 0 in
  let pies := createCard "n2" "pies" "dog" 0 in
  let tomcat := createCard "n3" "KOT" "tomcat" 0 in
  let existing := [createCard "c0" "PIES" "hound" 0] in
  [kot] <> [] /\
  without_duplicates (fun c => asciiToLowerCase (front c))
    [kot; pies; tomcat] existing [kot].
Proof.
  intros kot pies tomcat existing.
  apply (import_adds_no_duplicate asciiToLowerCase (fun s => s)
           [kot; pies; tomcat] existing [kot] true).
  vm_compute. reflexivity.
Defined.

(** ** [app.js]: the streak and the count of the day *)

Section StreakFacts.

Variable toDateString : Z -> string.
Variable parseInt : string -> JS.Number.
Variable toString : JS.Number -> string.

Lemma orZero_text text : text <> "" -> orZero (Some text) = text.
Proof.
  intros H. unfold orZero. now rewrite decide_False.
Qed.

Lemma recordStudySession_again now now' storage text :
  getItem "kapanak-last-study" storage = Some (toDateString now) ->
  getItem "kapanak-streak" storage = Some text ->
  reads_back parseInt toString text ->
  recordStudySession toDateString parseInt toString now now' storage = storage.
Proof.
  unfold getItem, recordStudySession, setItem. intros Hl Hs [Hne Hrb].
  unfold getItem. rewrite Hl, Hs, bool_decide_eq_true_2 by reflexivity.
  rewrite (orZero_text text Hne), Hrb.
  rewrite (insert_id storage "kapanak-streak" text Hs).
  now apply insert_id.
Qed.

Lemma recordStudySession_day now now' storage :
  getItem "kapanak-last-study"
    (recordStudySession toDateString parseInt toString now now' storage)
  = Some (toDateString now).
Proof.
  unfold getItem, recordStudySession, setItem. apply lookup_insert_eq.
Qed.

End StreakFacts.

(** X20.  A day counts once for the streak.  When a session with a reviewed
    card has ended and the text of the streak it wrote is read back as the
    number it shows, the end of any other session on the same day leaves
    the storage as it is, and [updateStreak] shows that streak without
    resetting it.  The end of a session without a reviewed card leaves the
    storage as it is on every day. *)
Theorem a_day_counts_once_for_the_streak
    (toDateString : Z -> string) (parseInt : string -> JS.Number)
    (toString : JS.Number -> string)
    (st st2 st3 : State) (now1 now1' now2 now2' : Z) (storage : Storage)
    (text : string) :
  let storage1 := endStudy toDateString parseInt toString st now1 now1' storage in
  (0 < reviewedCount st)%nat ->
  getItem "kapanak-streak" storage1 = Some text ->
  reads_back parseInt toString text ->
  toDateString now2 = toDateString now1 ->
  reviewedCount st3 = 0%nat ->
  endStudy toDateString parseInt toString st2 now2 now2' storage1 = storage1 /\
  updateStreak toDateString parseInt now2 now2' storage1
  = (parseInt text, storage1) /\
  endStudy toDateString parseInt toString st3 now2 now2' storage = storage.
Proof.
  intros storage1 Hr Hs Hrb Hday Hr3.
  assert (Hl : getItem "kapanak-last-study" storage1 = Some (toDateString now2)).
  { unfold storage1, endStudy.
    destruct (Nat.ltb_spec 0 (reviewedCount st)) as [_|]; [|lia].
    rewrite Hday. apply recordStudySession_day. }
  split; [|split].
  - unfold endStudy. destruct (0 <? reviewedCount st2)%nat; [|reflexivity].
    now apply (recordStudySession_again _ _ _ _ _ _ text).
  - unfold updateStreak. unfold getItem in *. rewrite Hl, Hs.
    rewrite bool_decide_eq_true_2 by reflexivity.
    destruct Hrb as [Hne _]. now rewrite (orZero_text text Hne).
  - unfold endStudy. now rewrite Hr3.
Qed.

Lemma a_day_counts_once_for_the_streak_witness :
  let storage : Storage :=
    {[ "kapanak-streak" := "3"; "kapanak-last-study" := dayNumber (4 * msPerDay) ]} in
  let now1 := 5 * msPerDay + 1000 in
  let now2 := 5 * msPerDay + 9000 in
  let st := set_reviewedCount 2 threeCards in
  let storage1 := endStudy dayNumber parseDigit digitToString st now1 now1 storage in
  getItem "kapanak-streak" storage1 = Some "4" /\
  endStudy dayNumber parseDigit digitToString st now2 now2 storage1 = storage1 /\
  updateStreak dayNumber parseDigit now2 now2 storage1
  = (JS.ofZ 4, storage1) /\
  endStudy dayNumber parseDigit digitToString threeCards now2 now2 storage = storage.
Proof.
  intros storage now1 now2 st storage1.
  split; [vm_compute; reflexivity|].
  apply (a_day_counts_once_for_the_streak dayNumber parseDigit digitToString
           st st threeCards now1 now1 now2 now2 storage "4").
  - simpl. lia.
  - vm_compute. reflexivity.
  - split; [discriminate|vm_compute; reflexivity].
  - vm_compute. reflexivity.
  - reflexivity.
Defined.

(** X21.  The streak follows the calendar.  On a day other than the day of
    the last session: when that was the day of the instant 24 hours ago,
    [updateStreak] shows the stored streak and leaves the storage, and
    [recordStudySession] stores the streak plus one; otherwise
    [updateStreak] shows 0 and stores it, and [recordStudySession] stores 1,
    before or after [updateStreak].  In both cases [recordStudySession]
    stores the day and changes nothing else. *)
Theorem streak_follows_the_calendar
    (toDateString : Z -> string) (parseInt : string -> JS.Number)
    (toString : JS.Number -> string) (now now' : Z) (storage : Storage) :
  let lastStudy := getItem "kapanak-last-study" storage in
  let streak := parseInt (orZero (getItem "kapanak-streak" storage)) in
  let today := toDateString now in
  let yesterday := toDateString (now' - 86400000) in
  let record := recordStudySession toDateString parseInt toString now now' in
  let update := updateStreak toDateString parseInt now now' in
  lastStudy <> Some today ->
  (lastStudy = Some yesterday ->
   update storage = (streak, storage) /\
   record storage
   = setItem "kapanak-last-study" today
       (setItem "kapanak-streak" (toString (streak + JS.ofZ 1)%js) storage)) /\
  (lastStudy <> Some yesterday ->
   update storage = (JS.ofZ 0, setItem "kapanak-streak" "0" storage) /\
   record storage
   = setItem "kapanak-last-study" today
       (setItem "kapanak-streak" (toString (JS.ofZ 1)) storage) /\
   record (update storage).2 = record storage).
Proof.
  intros lastStudy streak today yesterday record update Ht.
  unfold record, update, recordStudySession, updateStreak.
  fold lastStudy streak today yesterday.
  rewrite (bool_decide_eq_false_2 _ Ht). split; intros Hy.
  - rewrite (bool_decide_eq_true_2 _ Hy). split; reflexivity.
  - rewrite (bool_decide_eq_false_2 _ Hy). split; [reflexivity|].
    split; [reflexivity|]. cbn [snd negb andb].
    unfold getItem, setItem in *.
    rewrite (lookup_insert_ne storage "kapanak-streak" "kapanak-last-study")
      by discriminate.
    fold lastStudy.
    rewrite (bool_decide_eq_false_2 _ Ht), (bool_decide_eq_false_2 _ Hy).
    cbv iota. f_equal. apply insert_insert_eq.
Qed.

Lemma streak_follows_the_calendar_witness :
  let storage : Storage :=
    {[ "kapanak-streak" := "3"; "kapanak-last-study" := dayNumber (2 * msPerDay) ]} in
  let now := 5 * msPerDay + 1000 in
  let record := recordStudySession dayNumber parseDigit digitToString now now in
  let update := updateStreak dayNumber parseDigit now now in
  (getItem "kapanak-last-study" storage = Some (dayNumber (now - 86400000)) ->
   update storage = (parseDigit (orZero (getItem "kapanak-streak" storage)), storage) /\
   record storage
   = setItem "kapanak-last-study" (dayNumber now)
       (setItem "kapanak-streak"
          (digitToString
             (parseDigit (orZero (getItem "kapanak-streak" storage)) + JS.ofZ 1)%js)
          storage)) /\
  (getItem "kapanak-last-study" storage <> Some (dayNumber (now - 86400000)) ->
   update storage = (JS.ofZ 0, setItem "kapanak-streak" "0" storage) /\
   record storage
   = setItem "kapanak-last-study" (dayNumber now)
       (setItem "kapanak-streak" (digitToString (JS.ofZ 1)) storage) /\
   record (update storage).2 = record storage).
Proof.
  intros storage now record update.
  apply (streak_follows_the_calendar dayNumber parseDigit digitToString
           now now storage).
  vm_compute. discriminate.
Defined.

(** X22.  The count of the day is kept per day.  [incrementTodayCount]
    stores the day of the review and the text of the count it shows; on a
    day other than the stored one the count starts again from 0, so that it
    shows 0 + 1.  Afterwards the home screen shows, on the same day, the
    number read from that text and, on any other day, 0. *)
Theorem count_of_the_day_is_per_day
    (toDateString : Z -> string) (parseInt : string -> JS.Number)
    (toString : JS.Number -> string) (now : Z) (storage : Storage) :
  let today := toDateString now in
  let shown := (incrementTodayCount toDateString parseInt toString now storage).1 in
  let storage1 := (incrementTodayCount toDateString parseInt toString now storage).2 in
  getItem "kapanak-review-date" storage1 = Some today /\
  getItem "kapanak-today-count" storage1 = Some (toString shown) /\
  (getItem "kapanak-review-date" storage <> Some today ->
   shown = (JS.ofZ 0 + JS.ofZ 1)%js) /\
  (forall now2,
     toDateString now2 = today -> toString shown <> "" ->
     todayCount toDateString parseInt now2 storage1 = parseInt (toString shown)) /\
  (forall now2,
     toDateString now2 <> today ->
     todayCount toDateString parseInt now2 storage1 = JS.ofZ 0).
Proof.
  intros today shown storage1.
  assert (Hd : getItem "kapanak-review-date" storage1 = Some today).
  { unfold storage1, incrementTodayCount, getItem, setItem. fold today.
    destruct (bool_decide_reflect (storage !! "kapanak-review-date" = Some today))
      as [E|E]; cbn [fst snd].
    - etrans; [apply lookup_insert_ne; discriminate|exact E].
    - etrans; [apply lookup_insert_ne; discriminate|apply lookup_insert_eq]. }
  assert (Hc : getItem "kapanak-today-count" storage1 = Some (toString shown)).
  { unfold storage1, shown, incrementTodayCount, getItem, setItem. fold today.
    destruct (bool_decide (storage !! "kapanak-review-date" = Some today));
      cbn [fst snd]; apply lookup_insert_eq. }
  split; [exact Hd|]. split; [exact Hc|]. split; [|split].
  - intros Hne. unfold shown, incrementTodayCount. fold today.
    now rewrite (bool_decide_eq_false_2 _ Hne).
  - intros now2 Hday Hne. unfold todayCount. rewrite Hday, Hd, Hc.
    rewrite bool_decide_eq_true_2 by reflexivity.
    now rewrite (orZero_text _ Hne).
  - intros now2 Hday. unfold todayCount. rewrite Hd.
    rewrite bool_decide_eq_false_2; [reflexivity|]. congruence.
Qed.

(** ** [app.js]: a review with what it does beside the session *)

Section PageFacts.

Variable engine : Card -> Z -> Z -> option Card.
Variable toDateString : Z -> string.
Variable parseInt : string -> JS.Number.
Variable toString : JS.Number -> string.





End PageFacts.




(** The last review of a session of three cards, rated Easy with the sound
    on: the count of the day goes from 3 to 4, the streak starts at 1, and
    the sounds of the rating and of the end are played. *)
Example last_review_of_a_session :
  let storage : Storage :=
    {[ "kapanak-review-date" := dayNumber (5 * msPerDay);
       "kapanak-today-count" := "3" ]} in
  let st := set_currentCardIndex 2 (set_reviewedCount 2 threeCards) in
  let now := 5 * msPerDay + 1000 in
  exists p',
    AppPage.handleReview Flat.calculateNextReview dayNumber parseDigit
      digitToString 5 now now now now Fulfilled (mkPage st storage true [])
    = Shown p' /\
    currentCardIndex (session p') = 3%nat /\
    reviewedCount (session p') = 3%nat /\
    localStorage p' !! "kapanak-today-count" = Some "4" /\
    localStorage p' !! "kapanak-streak" = Some "1" /\
    localStorage p' !! "kapanak-last-study" = Some "5" /\
    played p' = ["success"; "complete"].
Proof.
  intros storage st now.
  destruct (AppPage.handleReview Flat.calculateNextReview dayNumber parseDigit
              digitToString 5 now now now now Fulfilled (mkPage st storage true []))
    as [p'| |] eqn:E; [|vm_compute in E; discriminate E ..].
  exists p'. split; [reflexivity|].
  assert (H : Shown p' = Shown p') by reflexivity.
  rewrite <- E in H at 1. vm_compute in H. injection H as <-.
  vm_compute. repeat split.
Qed.
